(** * Confluence MCP adapter: access validator, audit logger, space cache,
      adapter operations and tool dispatcher.

    Shallow embedding of [src/config.ts], [src/logger.ts], the
    [ConfluenceClient] class (cursor/cache revision) and the
    [CallToolRequestSchema] handler of [src/index.ts].

    Conventions.
    - A JavaScript string is held as the bytes of its UTF-8 encoding.
      [toLowerCase], [toUpperCase] and [trim] work on the ASCII letters and
      the ASCII white space only: they are JavaScript's on the strings that
      hold ASCII characters only ([Js.ascii_only]) and not beyond, so the
      statements that depend on case mapping or trimming are about such
      strings.
    - JavaScript numbers that the code uses as counters, sizes and timestamps
      are integers ([Z]).
    - An [async] method is a state-passing function: it takes the client
      state and returns an outcome together with the state it leaves behind
      (the state survives a [throw]). *)

From Stdlib Require Import String Ascii List ZArith Bool Lia.
Import ListNotations.
Open Scope string_scope.
Open Scope Z_scope.

(* ===================================================================== *)
(** ** JavaScript string and array primitives                             *)
(* ===================================================================== *)

Module Js.

(** The one-character string holding a double quote. *)
Definition dq : string := String (ascii_of_nat 34) EmptyString.

(** The line separator used by the logger. *)
Definition nl : ascii := ascii_of_nat 10.

(** A string is truthy iff it is not empty. *)
Definition truthy_str (s : string) : bool :=
  match s with
  | EmptyString => false
  | String _ _ => true
  end.

(** An optional string ([undefined] when absent) is truthy iff present and
    not empty. *)
Definition truthy_ostr (o : option string) : bool :=
  match o with
  | None => false
  | Some s => truthy_str s
  end.

(** [ascii_only s]: every byte of [s] is below 128, that is, [s] holds
    ASCII characters only. *)
Fixpoint ascii_only (s : string) : bool :=
  match s with
  | EmptyString => true
  | String c s' => Nat.ltb (nat_of_ascii c) 128 && ascii_only s'
  end.

Definition lower_ascii (c : ascii) : ascii :=
  let n := nat_of_ascii c in
  if (Nat.leb 65 n && Nat.leb n 90)%bool then ascii_of_nat (n + 32) else c.

Definition upper_ascii (c : ascii) : ascii :=
  let n := nat_of_ascii c in
  if (Nat.leb 97 n && Nat.leb n 122)%bool then ascii_of_nat (n - 32) else c.

(** [String.prototype.toLowerCase] and [toUpperCase], on ASCII strings;
    a byte of another character is left as it is, where JavaScript maps
    the character by the Unicode tables. *)
Fixpoint toLowerCase (s : string) : string :=
  match s with
  | EmptyString => EmptyString
  | String c s' => String (lower_ascii c) (toLowerCase s')
  end.

Fixpoint toUpperCase (s : string) : string :=
  match s with
  | EmptyString => EmptyString
  | String c s' => String (upper_ascii c) (toUpperCase s')
  end.

(** [String.prototype.includes]: [sub] occurs somewhere in [s]. *)
Fixpoint includes (s sub : string) : bool :=
  String.prefix sub s ||
  match s with
  | EmptyString => false
  | String _ s' => includes s' sub
  end.

(** [Array.prototype.includes] on an array of strings. *)
Fixpoint arr_includes (xs : list string) (x : string) : bool :=
  match xs with
  | [] => false
  | y :: ys => String.eqb y x || arr_includes ys x
  end.

(** [Array.prototype.slice(start)] with one argument: a negative [start]
    counts from the end, and everything is clamped to the array. *)
Definition slice {A} (start : Z) (xs : list A) : list A :=
  let len := Z.of_nat (length xs) in
  let from := if start <? 0 then Z.max (len + start) 0 else Z.min start len in
  skipn (Z.to_nat from) xs.

(** [String.prototype.split('\n')]. *)
Fixpoint split_nl (s : string) : list string :=
  match s with
  | EmptyString => [EmptyString]
  | String c s' =>
      if Ascii.eqb c nl then EmptyString :: split_nl s'
      else match split_nl s' with
           | [] => [String c EmptyString]
           | h :: t => String c h :: t
           end
  end.

(** [Array.prototype.join('\n')]. *)
Fixpoint join_nl (ls : list string) : string :=
  match ls with
  | [] => EmptyString
  | [l] => l
  | l :: rest => l ++ String nl (join_nl rest)
  end.

(** [Array.prototype.join(sep)] for an arbitrary separator. *)
Fixpoint join (sep : string) (ls : list string) : string :=
  match ls with
  | [] => EmptyString
  | [l] => l
  | l :: rest => l ++ sep ++ join sep rest
  end.

(** [Array.prototype.find]. *)
Fixpoint find {A} (p : A -> bool) (xs : list A) : option A :=
  match xs with
  | [] => None
  | x :: xs' => if p x then Some x else find p xs'
  end.

(** A [Map] keeps its keys in insertion order; [set] on a present key
    replaces the value in place. *)
Fixpoint map_set {V} (k : string) (v : V) (m : list (string * V))
  : list (string * V) :=
  match m with
  | [] => [(k, v)]
  | (k', v') :: m' =>
      if String.eqb k' k then (k, v) :: m' else (k', v') :: map_set k v m'
  end.

Fixpoint map_get {V} (k : string) (m : list (string * V)) : option V :=
  match m with
  | [] => None
  | (k', v') :: m' => if String.eqb k' k then Some v' else map_get k m'
  end.

End Js.

(* ===================================================================== *)
(** ** config.ts                                                          *)
(* ===================================================================== *)

Record ConfluenceConfig := {
  baseUrl : string;
  username : string;
  apiToken : string;
  allowedSpaces : list string;
  debug : bool
}.

Definition validateSpaceAccess (spaceKey : string) (allowed : list string)
  : bool :=
  Js.arr_includes allowed spaceKey.

(* ===================================================================== *)
(** ** JSON values                                                        *)
(* ===================================================================== *)

(** Payloads handed to the logger, after the [JSON.parse(JSON.stringify _)]
    deep copy: objects are ordered lists of fields. *)
#[warnings="-register-all"]
Inductive json :=
| JNull
| JBool (b : bool)
| JNum (n : Z)
| JStr (s : string)
| JArr (items : list json)
| JObj (fields : list (string * json)).

(** JavaScript truthiness of a JSON value. *)
Definition truthy (v : json) : bool :=
  match v with
  | JNull => false
  | JBool b => b
  | JNum n => negb (n =? 0)
  | JStr s => Js.truthy_str s
  | JArr _ | JObj _ => true
  end.

(** [typeof v === 'object'] (true of [null], arrays and objects). *)
Definition typeof_object (v : json) : bool :=
  match v with
  | JNull | JArr _ | JObj _ => true
  | _ => false
  end.

(* ===================================================================== *)
(** ** logger.ts                                                          *)
(* ===================================================================== *)

Module Logger.

Definition REDACTED : json := JStr "[REDACTED]".

Definition sensitiveKeys : list string :=
  ["password"; "token"; "authorization"; "auth"; "key"; "secret"].

(** [sensitiveKeys.some(sensitive => key.toLowerCase().includes(sensitive))] *)
Definition isSensitive (key : string) : bool :=
  existsb (fun sensitive => Js.includes (Js.toLowerCase key) sensitive)
          sensitiveKeys.

(** [removeSensitiveFields] mutates its argument in place; the embedding
    returns the mutated value.  The keys of an array are its indices, which
    contain no letter and so are never sensitive. *)
Fixpoint removeSensitiveFields (obj : json) : json :=
  match obj with
  | JObj fields =>
      JObj (map (fun kv =>
                   if isSensitive (fst kv) then (fst kv, REDACTED)
                   else if typeof_object (snd kv)
                        then (fst kv, removeSensitiveFields (snd kv))
                        else kv)
                fields)
  | JArr items =>
      JArr (map (fun v =>
                   if typeof_object v then removeSensitiveFields v else v)
                items)
  | _ => obj
  end.

Definition sanitizeData (data : json) : json :=
  if negb (truthy data) then data
  else removeSensitiveFields data.

(** A log entry before [JSON.stringify]: a field whose value is
    [undefined] ([None]) is left out of the line. *)
Definition entry := list (string * option json).

Definition entry_json (e : entry) : json :=
  JObj (flat_map (fun kv => match snd kv with
                            | Some v => [(fst kv, v)]
                            | None => []
                            end) e).

(** [data ? this.sanitizeData(data) : undefined] *)
Definition sanitized_opt (data : option json) : option json :=
  match data with
  | Some d => if truthy d then Some (sanitizeData d) else None
  | None => None
  end.

(** [params || {}] *)
Definition params_or_empty (params : option json) : json :=
  match params with
  | Some p => if truthy p then p else JObj []
  | None => JObj []
  end.

Definition logRequest_entry (timestamp method url : string)
           (params data : option json) : entry :=
  [ ("timestamp", Some (JStr timestamp));
    ("type", Some (JStr "REQUEST"));
    ("method", Some (JStr (Js.toUpperCase method)));
    ("url", Some (JStr url));
    ("params", Some (params_or_empty params));
    ("data", sanitized_opt data) ].





(** The log file: [None] while it does not exist ([ENOENT]). *)
Definition file := option string.

Definition maxSizeBytes (maxSizeMB : Z) : Z := maxSizeMB * 1024 * 1024.

(** The lines that [checkAndTrimLogFile] keeps. *)
Definition trimmedLines (lines : list string) : list string :=
  let keepLines := Z.of_nat (length lines) / 2 in
  Js.slice (- keepLines) lines.

(** [checkAndTrimLogFile]: the size of the file is its length in bytes. *)
Definition checkAndTrimLogFile (maxSize : Z) (f : file) : file :=
  match f with
  | None => None
  | Some content =>
      if Z.of_nat (String.length content) >? maxSize
      then Some (Js.join_nl (trimmedLines (Js.split_nl content)))
      else Some content
  end.

(** [fs.promises.appendFile] creates the file when it is missing. *)
Definition appendFile (f : file) (text : string) : file :=
  match f with
  | None => Some text
  | Some content => Some (content ++ text)
  end.

Section Lines.
(** [JSON.stringify] of a log entry. *)
Variable stringify : json -> string.

Definition writeLog (maxSize : Z) (line : string) (f : file) : file :=
  appendFile (checkAndTrimLogFile maxSize f) (line ++ String Js.nl EmptyString).

Definition logRequest (maxSize : Z) (timestamp method url : string)
           (params data : option json) (f : file) : file :=
  writeLog maxSize
           (stringify (entry_json
              (logRequest_entry timestamp method url params data))) f.


End Lines.

End Logger.

(* ===================================================================== *)
(** ** types.ts and the remote system                                     *)
(* ===================================================================== *)

Record ConfluenceSpace := {
  space_id : string;
  space_key : string;
  space_name : string
}.

(** [page_space] is the key of the owning space: [None] when the response
    carries no [space] object or no [key] in it. *)
Record ConfluencePage := {
  page_id : string;
  page_title : string;
  page_space : option string;
  page_body : option json;
  page_version : Z
}.

(** [results], [size] and [_links.next] are the fields the client reads or
    writes; [other] stands for the remaining fields, which the spread
    [...response.data] carries over unchanged. *)
Record PaginatedResult (T : Type) := {
  results : list T;
  size : Z;
  links_next : option string;
  other : json
}.
Arguments results {T} _.
Arguments size {T} _.
Arguments links_next {T} _.
Arguments other {T} _.

Record SearchResult := {
  content : list ConfluencePage;
  sr_start : Z;
  sr_limit : Z;
  sr_size : Z;
  sr_links : json
}.

Record CreatePageRequest := {
  cp_spaceId : string;
  cp_status : string;
  cp_title : string;
  cp_body_representation : string;
  cp_body_value : string;
  cp_parentId : option string
}.

Record UpdatePageRequest := {
  up_id : string;
  up_status : string;
  up_title : string;
  up_type : string;
  up_version_number : Z;
  up_body_storage_value : string;
  up_body_storage_representation : string
}.

Record MovePageRequest := {
  mv_version_number : Z;
  mv_title : string;
  mv_type : string;
  mv_space_key : string;
  mv_ancestors : option (list string)
}.

(** The HTTP requests the client issues.  [GetSearch] and [GetContent] go
    to the v1 API through the global [axios]; the others go to the v2 API
    through [this.client]. *)
Inductive Request :=
| GetSearch (cql : string) (limit start : Z) (expand : string)
| GetContent (pageId expand : string)
| PostPage (pageData : CreatePageRequest)
| PutPageUpdate (pageId : string) (updateData : UpdatePageRequest)
| PutPageMove (pageId : string) (moveData : MovePageRequest)
| DeletePage (pageId : string)
| GetSpaces (limit : Z) (cursor : option string)
| GetSpace (spaceId : string)
| GetPages (spaceKey : string) (limit start : Z)
| GetChildren (pageId : string) (limit start : Z).

(** A request is mutating when its method is POST, PUT or DELETE. *)
Definition mutating (r : Request) : bool :=
  match r with
  | PostPage _ | PutPageUpdate _ _ | PutPageMove _ _ | DeletePage _ => true
  | _ => false
  end.

(** A rejected request: the status is absent on a network failure. *)
Record AxiosError := {
  ax_message : string;
  ax_status : option Z
}.

Definition Reply (A : Type) : Type := (AxiosError + A)%type.

Inductive ErrorCode := InternalError | MethodNotFound.

Inductive Exn :=
| Error (message : string)
| TypeError (message : string)
| AxiosFailure (e : AxiosError)
| McpError (code : ErrorCode) (message : string).

(** The environment of the client: the remote system as a state machine
    over an abstract [World] (one transition per request, typed by what the
    client expects back), the wall clock read by [Date.now()], and the two
    library functions the sources do not contain. *)
Record Env := {
  World : Type;
  now : World -> Z;
  (** The search endpoint answers with [results], [start], [limit], [size]
      and [_links]; the reply is given with [results] already under the
      name [content] that [searchContent] returns it by. *)
  http_search : Request -> World -> Reply SearchResult * World;
  http_page : Request -> World -> Reply ConfluencePage * World;
  http_unit : Request -> World -> Reply unit * World;
  http_spaces : Request -> World -> Reply (PaginatedResult ConfluenceSpace) * World;
  http_space : Request -> World -> Reply ConfluenceSpace * World;
  http_pages : Request -> World -> Reply (PaginatedResult ConfluencePage) * World;
  (** [new URL(next).searchParams.get('cursor')]: [None] when the URL
      constructor throws, [Some None] when the parameter is missing. *)
  url_cursor : string -> option (option string);
  (** The [message] that the SDK's [McpError] constructor builds. *)
  mcp_message : ErrorCode -> string -> string
}.

Inductive ConsoleMsg :=
| ConsoleLog (text : string)
| ConsoleWarn (text : string)
| ConsoleError (text : string).

(** What the interceptors of [this.client] hand to the audit logger. *)
Inductive AuditEvent :=
| AuditRequest (r : Request)
| AuditResponse (r : Request)
| AuditError (r : Request) (e : AxiosError).

(* ===================================================================== *)
(** ** The ConfluenceClient class                                         *)
(* ===================================================================== *)

Module Client.

(** Outcome of an [async] method: a value, a thrown exception, or the
    fuel of the embedding running out inside the paging loop. *)
Inductive Res (A : Type) :=
| Ok (a : A)
| Throw (e : Exn)
| OutOfFuel.
Arguments Ok {A} _.
Arguments Throw {A} _.
Arguments OutOfFuel {A}.

Section WithEnv.
Context (E : Env) (config : ConfluenceConfig).

(** The mutable members of the client ([spaceCache], [spaceCacheExpiry]),
    the remote world, and what the client has emitted so far: the
    requests sent, the console output and the audit log events. *)
Record St := {
  world : World E;
  spaceCache : list (string * ConfluenceSpace);
  spaceCacheExpiry : list (string * Z);
  calls : list Request;
  console : list ConsoleMsg;
  audit : list AuditEvent
}.

Definition M (A : Type) : Type := St -> Res A * St.

Definition ret {A} (a : A) : M A := fun s => (Ok a, s).
Definition throw {A} (e : Exn) : M A := fun s => (Throw e, s).
Definition out_of_fuel {A} : M A := fun s => (OutOfFuel, s).

Definition bind {A B} (c : M A) (k : A -> M B) : M B :=
  fun s =>
    match c s with
    | (Ok a, s') => k a s'
    | (Throw e, s') => (Throw e, s')
    | (OutOfFuel, s') => (OutOfFuel, s')
    end.

Definition CACHE_TTL : Z := 60 * 60 * 1000.

Definition allowed (spaceKey : string) : bool :=
  validateSpaceAccess spaceKey (allowedSpaces config).

(** *** State updates *)

Definition with_world (w : World E) (s : St) : St :=
  {| world := w; spaceCache := spaceCache s;
     spaceCacheExpiry := spaceCacheExpiry s; calls := calls s;
     console := console s; audit := audit s |}.

Definition add_call (r : Request) (s : St) : St :=
  {| world := world s; spaceCache := spaceCache s;
     spaceCacheExpiry := spaceCacheExpiry s; calls := (calls s ++ [r])%list;
     console := console s; audit := audit s |}.

Definition add_console (m : ConsoleMsg) (s : St) : St :=
  {| world := world s; spaceCache := spaceCache s;
     spaceCacheExpiry := spaceCacheExpiry s; calls := calls s;
     console := (console s ++ [m])%list; audit := audit s |}.

Definition add_audit (a : AuditEvent) (s : St) : St :=
  {| world := world s; spaceCache := spaceCache s;
     spaceCacheExpiry := spaceCacheExpiry s; calls := calls s;
     console := console s; audit := (audit s ++ [a])%list |}.

Definition debug_console (m : ConsoleMsg) (s : St) : St :=
  if debug config then add_console m s else s.

(** *** Transport *)

(** A request through the global [axios] (v1 API): no interceptor runs. *)
Definition axios_get {A} (send : Request -> World E -> Reply A * World E)
           (r : Request) : M A :=
  fun s =>
    let s1 := add_call r s in
    let (reply, w) := send r (world s1) in
    match reply with
    | inr a => (Ok a, with_world w s1)
    | inl e => (Throw (AxiosFailure e), with_world w s1)
    end.

(** A request through [this.client] (v2 API): the request interceptor
    logs it, then the response or the error interceptor logs the reply;
    the error interceptor rejects with the error it was given. *)
Definition client_send {A} (send : Request -> World E -> Reply A * World E)
           (r : Request) : M A :=
  fun s =>
    let s1 := debug_console (ConsoleLog "Confluence API Request:")
                            (add_audit (AuditRequest r) s) in
    let s2 := add_call r s1 in
    let (reply, w) := send r (world s2) in
    let s3 := with_world w s2 in
    match reply with
    | inr a =>
        (Ok a, debug_console (ConsoleLog "Confluence API Response:")
                             (add_audit (AuditResponse r) s3))
    | inl e =>
        (Throw (AxiosFailure e),
         debug_console (ConsoleError "Confluence API Error:")
                       (add_audit (AuditError r e) s3))
    end.

(** *** The space cache *)

Definition isSpaceCacheValid (spaceKey : string) : M bool :=
  fun s =>
    match Js.map_get spaceKey (spaceCacheExpiry s) with
    | Some expiry => (Ok (now E (world s) <? expiry), s)
    | None => (Ok false, s)
    end.

Definition cacheSpace_st (space : ConfluenceSpace) (s : St) : St :=
  let t := now E (world s) in
  {| world := world s;
     spaceCache := Js.map_set (space_key space) space (spaceCache s);
     spaceCacheExpiry :=
       Js.map_set (space_key space) (t + CACHE_TTL) (spaceCacheExpiry s);
     calls := calls s; console := console s; audit := audit s |}.

Definition cacheSpace (space : ConfluenceSpace) : M unit :=
  fun s => (Ok tt, cacheSpace_st space s).

(** [filteredResults.forEach(space => this.cacheSpace(space))] *)
Fixpoint cacheSpaces (spaces : list ConfluenceSpace) : M unit :=
  match spaces with
  | [] => ret tt
  | space :: rest => bind (cacheSpace space) (fun _ => cacheSpaces rest)
  end.

(** *** Operations *)

Definition ostr (o : option string) : string :=
  match o with
  | Some s => s
  | None => EmptyString
  end.

(** [bodyFormat === 'view' ? 'body.view' : 'body.storage'] *)
Definition bodyExpand (bodyFormat : string) : string :=
  if String.eqb bodyFormat "view" then "body.view" else "body.storage".

Definition quoted (s : string) : string := Js.dq ++ s ++ Js.dq.

Definition searchContent (query spaceKey : option string) (limit : Z)
           (title : option string) (start : Z) (bodyFormat : option string)
  : M SearchResult :=
  let c1 := if Js.truthy_ostr query
            then ["text ~ " ++ quoted (ostr query)] else [] in
  let c2 := if Js.truthy_ostr title
            then app c1 ["title ~ " ++ quoted (ostr title)] else c1 in
  let searchConditions :=
    if Nat.eqb (length c2) 0 then app c2 ["type = page"] else c2 in
  let searchQuery := Js.join " AND " searchConditions in
  let expandParam :=
    if Js.truthy_ostr bodyFormat
    then "version,space" ++ "," ++ bodyExpand (ostr bodyFormat)
    else "version,space" in
  bind
    (if Js.truthy_ostr spaceKey then
       if negb (allowed (ostr spaceKey))
       then throw (Error ("Access denied to space: " ++ ostr spaceKey))
       else ret ("space = " ++ quoted (ostr spaceKey) ++ " AND " ++ searchQuery)
     else
       let allowedSpacesCql :=
         Js.join " OR "
           (map (fun space => "space = " ++ quoted space)
                (allowedSpaces config)) in
       ret ("(" ++ allowedSpacesCql ++ ") AND " ++ searchQuery))
    (fun cql =>
       bind (axios_get (http_search E) (GetSearch cql limit start expandParam))
            (fun data =>
               ret {| content := content data; sr_start := sr_start data;
                      sr_limit := sr_limit data; sr_size := sr_size data;
                      sr_links := sr_links data |})).

Definition no_space_error : Exn :=
  Error "Unable to determine page space for access validation".

Definition getPage (pageId : string) (bodyFormat : option string)
  : M ConfluencePage :=
  let expandParam :=
    if Js.truthy_ostr bodyFormat
    then "space,version" ++ "," ++ bodyExpand (ostr bodyFormat)
    else "space,version" in
  bind (axios_get (http_page E) (GetContent pageId expandParam))
       (fun data =>
          if negb (Js.truthy_ostr (page_space data)) then throw no_space_error
          else if negb (allowed (ostr (page_space data)))
          then throw (Error ("Access denied to space: "
                               ++ ostr (page_space data)))
          else ret data).

Definition listSpaces (limit : Z) (cursor : option string)
  : M (PaginatedResult ConfluenceSpace) :=
  let params_cursor := if Js.truthy_ostr cursor then cursor else None in
  bind (client_send (http_spaces E) (GetSpaces limit params_cursor))
       (fun data =>
          let filteredResults :=
            filter (fun space => allowed (space_key space)) (results data) in
          bind (cacheSpaces filteredResults)
               (fun _ =>
                  ret {| results := filteredResults;
                         size := Z.of_nat (length filteredResults);
                         links_next := links_next data;
                         other := other data |})).

(** The first cache entry, in insertion order, with the given id whose
    expiry has not passed. *)
Definition cachedById (spaceId : string) (s : St) : option ConfluenceSpace :=
  option_map snd
    (Js.find (fun kv =>
                String.eqb (space_id (snd kv)) spaceId &&
                match Js.map_get (fst kv) (spaceCacheExpiry s) with
                | Some expiry => now E (world s) <? expiry
                | None => false
                end)
             (spaceCache s)).

Definition getSpaceById (spaceId : string) : M ConfluenceSpace :=
  fun s =>
    match cachedById spaceId s with
    | Some space => (Ok space, s)
    | None =>
        bind (client_send (http_space E) (GetSpace spaceId))
             (fun data =>
                if negb (allowed (space_key data))
                then throw (Error ("Access denied to space: "
                                     ++ space_key data))
                else bind (cacheSpace data) (fun _ => ret data))
             s
    end.

(** The cursor for the next round of the paging loop. *)
Definition nextCursor (spaces : PaginatedResult ConfluenceSpace)
  : M (option string) :=
  if Js.truthy_ostr (links_next spaces) then
    match url_cursor E (ostr (links_next spaces)) with
    | None => throw (TypeError "Invalid URL")
    | Some c => ret (if Js.truthy_ostr c then c else None)
    end
  else ret None.

(** The [do ... while (cursor)] loop of [getSpaceByKey]; one unit of fuel
    per round. *)
Fixpoint findSpace (fuel : nat) (spaceKey : string) (cursor : option string)
  : M ConfluenceSpace :=
  match fuel with
  | O => out_of_fuel
  | S fuel' =>
      bind (listSpaces 100 cursor)
           (fun spaces =>
              match Js.find (fun s => String.eqb (space_key s) spaceKey)
                            (results spaces) with
              | Some space => ret space
              | None =>
                  bind (nextCursor spaces)
                       (fun cursor' =>
                          if Js.truthy_ostr cursor'
                          then findSpace fuel' spaceKey cursor'
                          else throw (Error ("Space not found: " ++ spaceKey)))
              end)
  end.

Definition getSpaceByKey (fuel : nat) (spaceKey : string)
  : M ConfluenceSpace :=
  if negb (allowed spaceKey)
  then throw (Error ("Access denied to space: " ++ spaceKey))
  else
    bind (isSpaceCacheValid spaceKey)
         (fun valid =>
            fun s =>
              match (if valid then Js.map_get spaceKey (spaceCache s)
                     else None) with
              | Some cachedSpace => (Ok cachedSpace, s)
              | None => findSpace fuel spaceKey None s
              end).

Definition createPage (fuel : nat) (spaceKey title content_ : string)
           (parentId : option string) : M ConfluencePage :=
  if negb (allowed spaceKey)
  then throw (Error ("Access denied to space: " ++ spaceKey))
  else
    bind (getSpaceByKey fuel spaceKey)
         (fun space =>
            if negb (Js.truthy_str (space_id space))
            then throw (Error ("Unable to get space ID for space: "
                                 ++ spaceKey))
            else
              let pageData :=
                {| cp_spaceId := space_id space;
                   cp_status := "current";
                   cp_title := title;
                   cp_body_representation := "storage";
                   cp_body_value := content_;
                   cp_parentId :=
                     if Js.truthy_ostr parentId then parentId else None |} in
              client_send (http_page E) (PostPage pageData)).

(** The access check that [updatePage], [deletePage], [movePage] and
    [getPageChildren] repeat on the page [getPage] returned. *)
Definition checkPageSpace (what : string) (page : ConfluencePage) : M unit :=
  if negb (Js.truthy_ostr (page_space page)) then throw no_space_error
  else if negb (allowed (ostr (page_space page)))
  then throw (Error (what ++ ostr (page_space page)))
  else ret tt.

Definition updatePage (pageId title content_ : string) (version : Z)
  : M ConfluencePage :=
  bind (getPage pageId None)
       (fun currentPage =>
          bind (checkPageSpace "Access denied to space: " currentPage)
               (fun _ =>
                  let updateData :=
                    {| up_id := pageId;
                       up_status := "current";
                       up_title := title;
                       up_type := "page";
                       up_version_number := version;
                       up_body_storage_value := content_;
                       up_body_storage_representation := "storage" |} in
                  client_send (http_page E)
                              (PutPageUpdate pageId updateData))).

Definition deletePage (pageId : string) : M unit :=
  bind (getPage pageId None)
       (fun currentPage =>
          bind (checkPageSpace "Access denied to space: " currentPage)
               (fun _ => client_send (http_unit E) (DeletePage pageId))).

Definition movePage (pageId targetSpaceKey : string)
           (parentId : option string) : M ConfluencePage :=
  bind (getPage pageId None)
       (fun currentPage =>
          bind (checkPageSpace "Access denied to source space: " currentPage)
               (fun _ =>
                  if negb (allowed targetSpaceKey)
                  then throw (Error ("Access denied to target space: "
                                       ++ targetSpaceKey))
                  else
                    let moveData :=
                      {| mv_version_number := page_version currentPage;
                         mv_title := page_title currentPage;
                         mv_type := "page";
                         mv_space_key := targetSpaceKey;
                         mv_ancestors :=
                           if Js.truthy_ostr parentId
                           then Some [ostr parentId] else None |} in
                    client_send (http_page E)
                                (PutPageMove pageId moveData))).

Definition with_body (body : json) (page : ConfluencePage) : ConfluencePage :=
  {| page_id := page_id page; page_title := page_title page;
     page_space := page_space page; page_body := Some body;
     page_version := page_version page |}.

(** [console.warn(`Failed to retrieve body content for page ${page.id}:`,
    error)] *)
Definition bodyWarning (page : ConfluencePage) : ConsoleMsg :=
  ConsoleWarn ("Failed to retrieve body content for page "
                 ++ page_id page ++ ":").

(** One callback of the body-enrichment fan-out: the [try] block fetches
    the page from the v1 API and attaches its body; the [catch] block
    warns on the console in debug mode only.  Either way the page is
    returned and the callback does not throw. *)
Definition enrichPage (format : string) (page : ConfluencePage)
  : M ConfluencePage :=
  fun s =>
    match axios_get (http_page E)
                    (GetContent (page_id page) (format ++ ",version,space"))
                    s with
    | (Ok v1, s') =>
        match page_body v1 with
        | Some body =>
            if truthy body then (Ok (with_body body page), s')
            else (Ok page, s')
        | None => (Ok page, s')
        end
    | (_, s') =>
        (Ok page, debug_console (bodyWarning page) s')
    end.

(** [Promise.all(results.map(async page => ...))].  The callbacks work on
    distinct pages and share nothing but the console, so the fan-out is
    run in list order. *)
Fixpoint enrichAll (format : string) (pages : list ConfluencePage)
  : M (list ConfluencePage) :=
  match pages with
  | [] => ret []
  | page :: rest =>
      bind (enrichPage format page)
           (fun page' =>
              bind (enrichAll format rest)
                   (fun rest' => ret (page' :: rest')))
  end.

(** The tail shared by [getSpaceContent] and [getPageChildren]. *)
Definition enrichListing (bodyFormat : option string)
           (data : PaginatedResult ConfluencePage)
  : M (PaginatedResult ConfluencePage) :=
  if Js.truthy_ostr bodyFormat && (0 <? Z.of_nat (length (results data)))
  then
    bind (enrichAll (bodyExpand (ostr bodyFormat)) (results data))
         (fun enhancedResults =>
            ret {| results := enhancedResults; size := size data;
                   links_next := links_next data; other := other data |})
  else ret data.

Definition getSpaceContent (spaceKey : string) (limit start : Z)
           (bodyFormat : option string)
  : M (PaginatedResult ConfluencePage) :=
  if negb (allowed spaceKey)
  then throw (Error ("Access denied to space: " ++ spaceKey))
  else
    bind (client_send (http_pages E) (GetPages spaceKey limit start))
         (enrichListing bodyFormat).

Definition getPageChildren (pageId : string) (limit start : Z)
           (bodyFormat : option string)
  : M (PaginatedResult ConfluencePage) :=
  bind (getPage pageId None)
       (fun parentPage =>
          bind (checkPageSpace "Access denied to space: " parentPage)
               (fun _ =>
                  bind (client_send (http_pages E)
                                    (GetChildren pageId limit start))
                       (enrichListing bodyFormat))).

(** The state of a freshly constructed client. *)
Definition initial (w : World E) : St :=
  {| world := w; spaceCache := []; spaceCacheExpiry := [];
     calls := []; console := []; audit := [] |}.

End WithEnv.

Arguments world {E} _.
Arguments spaceCache {E} _.
Arguments spaceCacheExpiry {E} _.
Arguments calls {E} _.
Arguments console {E} _.
Arguments audit {E} _.

End Client.

(* ===================================================================== *)
(** ** index.ts: the tool dispatcher                                      *)
(* ===================================================================== *)

Module Dispatcher.
Import Client.

(** A [tools/call] request that carries an arguments object: the tool
    name with its arguments, typed as the handler casts them.  Optional
    arguments may be absent. *)
Inductive ToolCall :=
| search_confluence (query title spaceKey : option string)
                    (limit start : option Z) (bodyFormat : option string)
| get_page (pageId : string) (bodyFormat : option string)
| create_page (spaceKey title content_ : string) (parentId : option string)
| update_page (pageId title content_ : string) (version : Z)
| move_page (pageId targetSpaceKey : string) (parentId : option string)
| list_spaces (limit : option Z) (cursor : option string)
| get_space_by_id (spaceId : string)
| get_space_by_key (spaceKey : string)
| get_space_content (spaceKey : string) (limit start : option Z)
                    (bodyFormat : option string)
| get_page_children (pageId : string) (limit start : option Z)
                    (bodyFormat : option string)
| unknown_tool (name : string).

(** The value a tool call answers with; the handler returns its
    [JSON.stringify] as a text item. *)
Inductive ToolValue :=
| VSearch (r : SearchResult)
| VPage (p : ConfluencePage)
| VSpaces (r : PaginatedResult ConfluenceSpace)
| VSpace (sp : ConfluenceSpace)
| VPages (r : PaginatedResult ConfluencePage).

Definition toolName (c : ToolCall) : string :=
  match c with
  | search_confluence _ _ _ _ _ _ => "search_confluence"
  | get_page _ _ => "get_page"
  | create_page _ _ _ _ => "create_page"
  | update_page _ _ _ _ => "update_page"
  | move_page _ _ _ => "move_page"
  | list_spaces _ _ => "list_spaces"
  | get_space_by_id _ => "get_space_by_id"
  | get_space_by_key _ => "get_space_by_key"
  | get_space_content _ _ _ _ => "get_space_content"
  | get_page_children _ _ _ _ => "get_page_children"
  | unknown_tool name => name
  end.

(** A destructuring default: [{ limit = 25 } = args]. *)
Definition default (d : Z) (o : option Z) : Z :=
  match o with
  | Some z => z
  | None => d
  end.

(** The property that the [case] for [name] destructures first from
    [args]; [None] for a name the [switch] has no case for. *)
Definition firstProperty (name : string) : option string :=
  if String.eqb name "search_confluence" then Some "query"
  else if String.eqb name "get_page" then Some "pageId"
  else if String.eqb name "create_page" then Some "spaceKey"
  else if String.eqb name "update_page" then Some "pageId"
  else if String.eqb name "move_page" then Some "pageId"
  else if String.eqb name "list_spaces" then Some "limit"
  else if String.eqb name "get_space_by_id" then Some "spaceId"
  else if String.eqb name "get_space_by_key" then Some "spaceKey"
  else if String.eqb name "get_space_content" then Some "spaceKey"
  else if String.eqb name "get_page_children" then Some "pageId"
  else None.

(** What [const { property, ... } = args] throws when [args] is
    [undefined], in the words of Node. *)
Definition destructure_error (property : string) : Exn :=
  TypeError ("Cannot destructure property '" ++ property
               ++ "' of 'args' as it is undefined.").

(** A [tools/call] request as it arrives: [params.arguments] is optional
    in the protocol, so a request may name a tool and carry no arguments
    object at all.  [with_arguments (unknown_tool name)] stands for a
    request only when [name] is none of the [switch]'s cases, that is,
    when [firstProperty name] is [None]. *)
Inductive ToolRequest :=
| with_arguments (c : ToolCall)
| without_arguments (name : string).

Definition requestName (r : ToolRequest) : string :=
  match r with
  | with_arguments c => toolName c
  | without_arguments name => name
  end.

Section WithEnv.
Context (E : Env) (config : ConfluenceConfig).

Definition validation_error : Exn :=
  Error ("At least one of " ++ quoted "query" ++ " or " ++ quoted "title"
           ++ " must be provided").

(** The [switch] inside the [try] block. *)
Definition runTool (fuel : nat) (c : ToolCall) : M E ToolValue :=
  match c with
  | search_confluence query title spaceKey limit start bodyFormat =>
      if negb (Js.truthy_ostr query) && negb (Js.truthy_ostr title)
      then throw E validation_error
      else bind E (searchContent E config query spaceKey (default 25 limit)
                                 title (default 0 start) bodyFormat)
                (fun r => ret E (VSearch r))
  | get_page pageId bodyFormat =>
      bind E (getPage E config pageId bodyFormat) (fun p => ret E (VPage p))
  | create_page spaceKey title content_ parentId =>
      bind E (createPage E config fuel spaceKey title content_ parentId)
           (fun p => ret E (VPage p))
  | update_page pageId title content_ version =>
      bind E (updatePage E config pageId title content_ version)
           (fun p => ret E (VPage p))
  | move_page pageId targetSpaceKey parentId =>
      bind E (movePage E config pageId targetSpaceKey parentId)
           (fun p => ret E (VPage p))
  | list_spaces limit cursor =>
      bind E (listSpaces E config (default 50 limit) cursor)
           (fun r => ret E (VSpaces r))
  | get_space_by_id spaceId =>
      bind E (getSpaceById E config spaceId) (fun sp => ret E (VSpace sp))
  | get_space_by_key spaceKey =>
      bind E (getSpaceByKey E config fuel spaceKey)
           (fun sp => ret E (VSpace sp))
  | get_space_content spaceKey limit start bodyFormat =>
      bind E (getSpaceContent E config spaceKey (default 25 limit)
                              (default 0 start) bodyFormat)
           (fun r => ret E (VPages r))
  | get_page_children pageId limit start bodyFormat =>
      bind E (getPageChildren E config pageId (default 25 limit)
                              (default 0 start) bodyFormat)
           (fun r => ret E (VPages r))
  | unknown_tool name =>
      throw E (McpError MethodNotFound ("Unknown tool: " ++ name))
  end.

(** [error instanceof Error ? error.message : String(error)] *)
Definition errorMessage (e : Exn) : string :=
  match e with
  | Error m => m
  | TypeError m => m
  | AxiosFailure a => ax_message a
  | McpError code m => mcp_message E code m
  end.

(** The handler: whatever the [try] block throws is wrapped into an
    internal-error [McpError] naming the tool. *)
Definition callTool (fuel : nat) (c : ToolCall) : M E ToolValue :=
  fun s =>
    match runTool fuel c s with
    | (Throw e, s') =>
        (Throw (McpError InternalError
                  ("Error executing " ++ toolName c ++ ": " ++ errorMessage e)),
         debug_console E config (ConsoleError "Tool execution error:") s')
    | r => r
    end.

(** The [try] block on a request: each [case] destructures [args] before
    anything else, which throws when the request has no arguments. *)
Definition runRequest (fuel : nat) (r : ToolRequest) : M E ToolValue :=
  match r with
  | with_arguments c => runTool fuel c
  | without_arguments name =>
      match firstProperty name with
      | Some property => throw E (destructure_error property)
      | None => runTool fuel (unknown_tool name)
      end
  end.

(** The handler on a request, with or without arguments. *)
Definition handleRequest (fuel : nat) (r : ToolRequest) : M E ToolValue :=
  fun s =>
    match runRequest fuel r s with
    | (Throw e, s') =>
        (Throw (McpError InternalError
                  ("Error executing " ++ requestName r ++ ": "
                     ++ errorMessage e)),
         debug_console E config (ConsoleError "Tool execution error:") s')
    | r => r
    end.
End WithEnv.

End Dispatcher.

(* ===================================================================== *)
(** ** Runs of the client                                                 *)
(* ===================================================================== *)

Module Run.
Import Client.

(** One invocation of a public method of the client. *)
Inductive Invocation :=
| InvSearchContent (query spaceKey : option string) (limit : Z)
                   (title : option string) (start : Z)
                   (bodyFormat : option string)
| InvGetPage (pageId : string) (bodyFormat : option string)
| InvCreatePage (spaceKey title content_ : string) (parentId : option string)
| InvUpdatePage (pageId title content_ : string) (version : Z)
| InvDeletePage (pageId : string)
| InvListSpaces (limit : Z) (cursor : option string)
| InvGetSpaceById (spaceId : string)
| InvGetSpaceByKey (spaceKey : string)
| InvGetSpaceContent (spaceKey : string) (limit start : Z)
                     (bodyFormat : option string)
| InvMovePage (pageId targetSpaceKey : string) (parentId : option string)
| InvGetPageChildren (pageId : string) (limit start : Z)
                     (bodyFormat : option string).

Section WithEnv.
Context (E : Env) (config : ConfluenceConfig).

(** The state an invocation leaves behind, whatever its outcome. *)
Definition exec (fuel : nat) (i : Invocation) (s : St E) : St E :=
  match i with
  | InvSearchContent q k l t st b =>
      snd (searchContent E config q k l t st b s)
  | InvGetPage p b => snd (getPage E config p b s)
  | InvCreatePage k t c p => snd (createPage E config fuel k t c p s)
  | InvUpdatePage p t c v => snd (updatePage E config p t c v s)
  | InvDeletePage p => snd (deletePage E config p s)
  | InvListSpaces l c => snd (listSpaces E config l c s)
  | InvGetSpaceById i => snd (getSpaceById E config i s)
  | InvGetSpaceByKey k => snd (getSpaceByKey E config fuel k s)
  | InvGetSpaceContent k l st b => snd (getSpaceContent E config k l st b s)
  | InvMovePage p k a => snd (movePage E config p k a s)
  | InvGetPageChildren p l st b => snd (getPageChildren E config p l st b s)
  end.

(** The states a client can be in: it starts with empty caches, methods
    are invoked on it one after the other, and between two invocations
    the remote world (and with it the clock) moves on by itself.
    Invocations that overlap in time are not covered. *)
Inductive reachable : St E -> Prop :=
| reach_initial (w : World E) : reachable (initial E w)
| reach_invoke (fuel : nat) (i : Invocation) (s : St E) :
    reachable s -> reachable (exec fuel i s)
| reach_world (w : World E) (s : St E) :
    reachable s -> reachable (with_world E w s).

(** Every cache entry is filed under the key of the space it holds, and
    that key is in the allowlist. *)
Definition cacheAllowed (s : St E) : Prop :=
  forall k sp, In (k, sp) (spaceCache s) ->
               space_key sp = k /\ allowed config k = true.
End WithEnv.

End Run.

(* ===================================================================== *)
(** ** A small remote system to run the client against                    *)
(* ===================================================================== *)

Module Demo.

Definition DEV : ConfluenceSpace :=
  {| space_id := "1"; space_key := "DEV"; space_name := "Development" |}.
Definition HR : ConfluenceSpace :=
  {| space_id := "2"; space_key := "HR"; space_name := "People" |}.

Definition mkPage (id : string) (key : string) (body : option json)
  : ConfluencePage :=
  {| page_id := id; page_title := "Notes"; page_space := Some key;
     page_body := body; page_version := 7 |}.

Definition conflict : AxiosError :=
  {| ax_message := "Request failed with status code 409";
     ax_status := Some 409 |}.
Definition notFound : AxiosError :=
  {| ax_message := "Request failed with status code 404";
     ax_status := Some 404 |}.

(** The world is the clock, in milliseconds; every request takes one.
    Page [p1] (and its children [c1], [c2]) live in DEV at version 7,
    page [p2] lives in HR; the body of [c2] cannot be fetched. *)
Definition env : Env :=
  {| World := Z;
     now := fun w => w;
     http_search := fun _ w =>
       (inr {| content := []; sr_start := 0; sr_limit := 25; sr_size := 0;
               sr_links := JObj [] |}, w + 1);
     http_page := fun r w =>
       (match r with
        | GetContent id _ =>
            if String.eqb id "p2" then inr (mkPage id "HR" None)
            else if String.eqb id "c2" then inl notFound
            else inr (mkPage id "DEV" (Some (JObj [("storage", JStr "<p>hi</p>")])))
        | PutPageUpdate id d =>
            if up_version_number d <? 7 then inl conflict
            else inr (mkPage id "DEV" None)
        | PutPageMove id d =>
            if mv_version_number d <? 7 then inl conflict
            else inr (mkPage id (mv_space_key d) None)
        | _ => inr (mkPage "n1" "DEV" None)
        end, w + 1);
     http_unit := fun _ w => (inr tt, w + 1);
     http_spaces := fun _ w =>
       (inr {| results := [HR; DEV]; size := 2; links_next := None;
               other := JObj [] |}, w + 1);
     http_space := fun r w =>
       (match r with
        | GetSpace id => if String.eqb id "1" then inr DEV else inr HR
        | _ => inl notFound
        end, w + 1);
     http_pages := fun _ w =>
       (inr {| results := [mkPage "c1" "DEV" None; mkPage "c2" "DEV" None];
               size := 2; links_next := None; other := JObj [] |}, w + 1);
     url_cursor := fun _ => Some None;
     mcp_message := fun _ m => m |}.

Definition config : ConfluenceConfig :=
  {| baseUrl := "https://example.atlassian.net"; username := "bot";
     apiToken := "t0p"; allowedSpaces := ["DEV"; "DOCS"]; debug := false |}.

Definition debugConfig : ConfluenceConfig :=
  {| baseUrl := "https://example.atlassian.net"; username := "bot";
     apiToken := "t0p"; allowedSpaces := ["DEV"; "DOCS"]; debug := true |}.

Definition start : Client.St env := Client.initial env 0.

End Demo.

(* ===================================================================== *)
(** ** config.ts: loading the configuration                               *)
(* ===================================================================== *)

Module Config.

(** The variables [getConfig] reads from [process.env]; a variable that
    is not set is [undefined]. *)
Record ProcessEnv := {
  CONFLUENCE_BASE_URL : option string;
  CONFLUENCE_USERNAME : option string;
  CONFLUENCE_API_TOKEN : option string;
  ALLOWED_SPACES : option string;
  DEBUG : option string
}.

(** [String.prototype.split(',')]. *)
Fixpoint split_comma (s : string) : list string :=
  match s with
  | EmptyString => [EmptyString]
  | String c s' =>
      if Ascii.eqb c ","%char then EmptyString :: split_comma s'
      else match split_comma s' with
           | [] => [String c EmptyString]
           | h :: t => String c h :: t
           end
  end.

(** The ASCII white space: tab, line feed, vertical tab, form feed,
    carriage return and space.  JavaScript's [trim] also strips the white
    space beyond ASCII (U+00A0, U+FEFF and the like), which [trim] below
    leaves in place. *)
Definition is_space (c : ascii) : bool :=
  let n := nat_of_ascii c in
  (Nat.leb 9 n && Nat.leb n 13) || Nat.eqb n 32.

Fixpoint trimStart (s : string) : string :=
  match s with
  | EmptyString => EmptyString
  | String c s' => if is_space c then trimStart s' else s
  end.

Fixpoint trimEnd (s : string) : string :=
  match s with
  | EmptyString => EmptyString
  | String c s' =>
      match trimEnd s' with
      | EmptyString => if is_space c then EmptyString else String c EmptyString
      | t => String c t
      end
  end.

(** [String.prototype.trim]. *)
Definition trim (s : string) : string := trimEnd (trimStart s).

(** [s.replace(/\/$/, '')]: one slash at the very end is dropped. *)
Fixpoint stripTrailingSlash (s : string) : string :=
  match s with
  | EmptyString => EmptyString
  | String c s' =>
      match s' with
      | EmptyString => if Ascii.eqb c "/"%char then EmptyString else s
      | _ => String c (stripTrailingSlash s')
      end
  end.

Definition value (o : option string) : string :=
  match o with
  | Some s => s
  | None => EmptyString
  end.

Definition required (name : string) : Exn :=
  Error (name ++ " environment variable is required").

Definition getConfig (env : ProcessEnv) : Exn + ConfluenceConfig :=
  if negb (Js.truthy_ostr (CONFLUENCE_BASE_URL env))
  then inl (required "CONFLUENCE_BASE_URL")
  else if negb (Js.truthy_ostr (CONFLUENCE_USERNAME env))
  then inl (required "CONFLUENCE_USERNAME")
  else if negb (Js.truthy_ostr (CONFLUENCE_API_TOKEN env))
  then inl (required "CONFLUENCE_API_TOKEN")
  else if negb (Js.truthy_ostr (ALLOWED_SPACES env))
  then inl (required "ALLOWED_SPACES")
  else
    inr {| baseUrl := stripTrailingSlash (value (CONFLUENCE_BASE_URL env));
           username := value (CONFLUENCE_USERNAME env);
           apiToken := value (CONFLUENCE_API_TOKEN env);
           allowedSpaces :=
             map trim (split_comma (value (ALLOWED_SPACES env)));
           debug := match DEBUG env with
                    | Some d => String.eqb d "true"
                    | None => false
                    end |}.

End Config.

(* ===================================================================== *)
(** ** Vocabulary of the statements                                       *)
(* ===================================================================== *)

Module Spec.

(** [no_nl s]: the string holds no line separator. *)
Fixpoint no_nl (s : string) : bool :=
  match s with
  | EmptyString => true
  | String c s' => negb (Ascii.eqb c Js.nl) && no_nl s'
  end.

(** [has_field d k v]: somewhere in [d], at any nesting depth (through
    objects and arrays), there is an object with a field named [k] whose
    value is [v]. *)
Inductive has_field : json -> string -> json -> Prop :=
| hf_here (fields : list (string * json)) (k : string) (v : json) :
    In (k, v) fields -> has_field (JObj fields) k v
| hf_under (fields : list (string * json)) (k' : string) (d : json)
           (k : string) (v : json) :
    In (k', d) fields -> has_field d k v -> has_field (JObj fields) k v
| hf_item (items : list json) (d : json) (k : string) (v : json) :
    In d items -> has_field d k v -> has_field (JArr items) k v.


(** The value of the first field named [k] of an object. *)
Definition field (k : string) (d : json) : option json :=
  match d with
  | JObj fields => Js.map_get k fields
  | _ => None
  end.

(** The replies that the callbacks of the body fan-out receive for
    [pages], in list order, when the first request meets the world [w];
    and the world after the last one. *)
Fixpoint fanoutReplies (E : Env) (format : string)
         (pages : list ConfluencePage) (w : World E)
  : list (Reply ConfluencePage) * World E :=
  match pages with
  | [] => ([], w)
  | page :: rest =>
      let (reply, w1) :=
        http_page E (GetContent (page_id page) (format ++ ",version,space")) w in
      let (replies, w2) := fanoutReplies E format rest w1 in
      (reply :: replies, w2)
  end.

(** One console warning per page whose body fetch was rejected. *)
Fixpoint failureWarnings (pages : list ConfluencePage)
         (replies : list (Reply ConfluencePage)) : list ConsoleMsg :=
  match pages, replies with
  | page :: ps, inl _ :: rs =>
      Client.bodyWarning page :: failureWarnings ps rs
  | _ :: ps, inr _ :: rs => failureWarnings ps rs
  | _, _ => []
  end.

(** [same_cache s s']: both maps of the space cache are the same in [s]
    and [s']. *)
Definition same_cache {E : Env} (s s' : Client.St E) : Prop :=
  Client.spaceCache s' = Client.spaceCache s /\
  Client.spaceCacheExpiry s' = Client.spaceCacheExpiry s.

(** Every request of [sent] is a read. *)
Definition reads_only (sent : list Request) : Prop :=
  forallb (fun r => negb (mutating r)) sent = true.

(** [cachedNow k s]: the cache holds a space under [k], stamped to expire
    one TTL after the present time of [s]. *)
Definition cachedNow {E : Env} (k : string) (s : Client.St E) : Prop :=
  (exists sp, Js.map_get k (Client.spaceCache s) = Some sp) /\
  Js.map_get k (Client.spaceCacheExpiry s)
  = Some (now E (Client.world s) + Client.CACHE_TTL).

(** [preserves E config c]: running [c] keeps the cache invariant. *)
Definition preserves (E : Env) (config : ConfluenceConfig) {A}
           (c : Client.M E A) : Prop :=
  forall s, Run.cacheAllowed E config s ->
            Run.cacheAllowed E config (snd (c s)).

(** [no_comma s]: the string holds no comma. *)
Fixpoint no_comma (s : string) : bool :=
  match s with
  | EmptyString => true
  | String c s' => negb (Ascii.eqb c ","%char) && no_comma s'
  end.

(** [ends_with_slash s]: the last character of [s] is a slash. *)
Fixpoint ends_with_slash (s : string) : bool :=
  match s with
  | EmptyString => false
  | String c EmptyString => Ascii.eqb c "/"%char
  | String _ s' => ends_with_slash s'
  end.

(** [clean d]: no object of [d], at any depth, has a field with a
    sensitive name. *)
Fixpoint clean (d : json) : bool :=
  match d with
  | JObj fields =>
      forallb (fun kv => negb (Logger.isSensitive (fst kv)) && clean (snd kv))
              fields
  | JArr items => forallb clean items
  | _ => true
  end.

(** [ascii_names d]: the field names of [d], at every depth, hold ASCII
    characters only. *)
Fixpoint ascii_names (d : json) : bool :=
  match d with
  | JObj fields =>
      forallb (fun kv => Js.ascii_only (fst kv) && ascii_names (snd kv))
              fields
  | JArr items => forallb ascii_names items
  | _ => true
  end.

(** The content of a log file that holds the given entries, each one
    followed by a line separator as [writeLog] appends it. *)
Fixpoint logOf (entries : list string) : string :=
  match entries with
  | [] => EmptyString
  | e :: rest => e ++ String Js.nl (logOf rest)
  end.

(** The call site of a request: the HTTP method and the URL template it
    was built from.  A page or space identifier is pasted into the
    template as it is, so the kind tells where in the client a request was
    built, not which resource its URL resolves to. *)
Inductive Kind :=
| KSearch | KContent | KPost | KPutUpdate | KPutMove | KDelete
| KSpaces | KSpace | KPages | KChildren.

Definition kind (r : Request) : Kind :=
  match r with
  | GetSearch _ _ _ _ => KSearch
  | GetContent _ _ => KContent
  | PostPage _ => KPost
  | PutPageUpdate _ _ => KPutUpdate
  | PutPageMove _ _ => KPutMove
  | DeletePage _ => KDelete
  | GetSpaces _ _ => KSpaces
  | GetSpace _ => KSpace
  | GetPages _ _ _ => KPages
  | GetChildren _ _ _ => KChildren
  end.

Definition Kind_eqb (a b : Kind) : bool :=
  match a, b with
  | KSearch, KSearch | KContent, KContent | KPost, KPost
  | KPutUpdate, KPutUpdate | KPutMove, KPutMove | KDelete, KDelete
  | KSpaces, KSpaces | KSpace, KSpace | KPages, KPages
  | KChildren, KChildren => true
  | _, _ => false
  end.

(** The kinds sent through [this.client], the axios instance that carries
    the logging interceptors; the others are sent through the global
    [axios]. *)
Definition via_client (k : Kind) : bool :=
  match k with
  | KSearch | KContent => false
  | _ => true
  end.

(** The HTTP method of a request, fixed by the axios call that sends
    it. *)
Inductive Verb := GET | POST | PUT | DELETE.

Definition verb (r : Request) : Verb :=
  match r with
  | PostPage _ => POST
  | PutPageUpdate _ _ | PutPageMove _ _ => PUT
  | DeletePage _ => DELETE
  | _ => GET
  end.

(** The HTTP methods each public method of the client may use. *)
Definition verbs_of (i : Run.Invocation) : list Verb :=
  match i with
  | Run.InvCreatePage _ _ _ _ => [GET; POST]
  | Run.InvUpdatePage _ _ _ _ | Run.InvMovePage _ _ _ => [GET; PUT]
  | Run.InvDeletePage _ => [GET; DELETE]
  | _ => [GET]
  end.

(** The kinds of request each public method of the client may send. *)
Definition kinds_of (i : Run.Invocation) : list Kind :=
  match i with
  | Run.InvSearchContent _ _ _ _ _ _ => [KSearch]
  | Run.InvGetPage _ _ => [KContent]
  | Run.InvCreatePage _ _ _ _ => [KSpaces; KPost]
  | Run.InvUpdatePage _ _ _ _ => [KContent; KPutUpdate]
  | Run.InvDeletePage _ => [KContent; KDelete]
  | Run.InvListSpaces _ _ => [KSpaces]
  | Run.InvGetSpaceById _ => [KSpace]
  | Run.InvGetSpaceByKey _ => [KSpaces]
  | Run.InvGetSpaceContent _ _ _ _ => [KPages; KContent]
  | Run.InvMovePage _ _ _ => [KContent; KPutMove]
  | Run.InvGetPageChildren _ _ _ _ => [KContent; KChildren]
  end.


(** [follows R c]: the state [c] leaves behind is related by [R] to the
    state it was run in. *)
Definition follows {E : Env} (R : Client.St E -> Client.St E -> Prop)
           {A} (c : Client.M E A) : Prop :=
  forall s, R s (snd (c s)).

(** [sent_only q s s']: from [s] to [s'] requests have only been added,
    all of a kind accepted by [q]. *)
Definition sent_only {E : Env} (q : Kind -> bool) (s s' : Client.St E)
  : Prop :=
  exists sent,
    Client.calls s' = (Client.calls s ++ sent)%list /\
    forallb (fun r => q (kind r)) sent = true.

(** The requests that the audit log has a request entry for, in order. *)
Fixpoint audited (events : list AuditEvent) : list Request :=
  match events with
  | [] => []
  | AuditRequest r :: rest => r :: audited rest
  | _ :: rest => audited rest
  end.

(** [Balanced events]: the events come in pairs, the entry of a request
    followed at once by the entry of its response or of its error. *)
Inductive Balanced : list AuditEvent -> Prop :=
| balanced_nil : Balanced []
| balanced_response (r : Request) (rest : list AuditEvent) :
    Balanced rest -> Balanced (AuditRequest r :: AuditResponse r :: rest)
| balanced_error (r : Request) (e : AxiosError) (rest : list AuditEvent) :
    Balanced rest -> Balanced (AuditRequest r :: AuditError r e :: rest).

(** [logs_client_requests s s']: from [s] to [s'] requests have been
    added and entries handed to the audit logger: for each added request
    that went through [this.client], and for no other, a request entry
    followed at once by the entry of its response or of its error, in the
    order sent. *)
Definition logs_client_requests {E : Env} (s s' : Client.St E) : Prop :=
  exists sent entries,
    Client.calls s' = (Client.calls s ++ sent)%list /\
    Client.audit s' = (Client.audit s ++ entries)%list /\
    Balanced entries /\
    audited entries = filter (fun r => via_client (kind r)) sent.

(** The kinds whose method is POST, PUT or DELETE. *)
Definition writes (k : Kind) : bool :=
  match k with
  | KPost | KPutUpdate | KPutMove | KDelete => true
  | _ => false
  end.

(** The methods that are meant to change the remote content. *)
Definition updates (i : Run.Invocation) : bool :=
  match i with
  | Run.InvCreatePage _ _ _ _ | Run.InvUpdatePage _ _ _ _
  | Run.InvDeletePage _ | Run.InvMovePage _ _ _ => true
  | _ => false
  end.

(** The kinds that are reads. *)
Definition readKinds (k : Kind) : bool := negb (writes k).

(** [oneWriteLast s s']: from [s] to [s'] only reads were sent, but for
    the last request, which may be a write. *)
Definition oneWriteLast {E : Env} (s s' : Client.St E) : Prop :=
  exists reads,
    reads_only reads /\
    (Client.calls s' = (Client.calls s ++ reads)%list \/
     exists w, mutating w = true /\
               Client.calls s' = (Client.calls s ++ reads ++ [w])%list).

(** [same_but_body p p']: the two pages differ in their body at most. *)
Definition same_but_body (p p' : ConfluencePage) : Prop :=
  page_id p' = page_id p /\ page_title p' = page_title p /\
  page_space p' = page_space p /\ page_version p' = page_version p.

(** The requests of the body fan-out for a listing: one per page, in the
    order of the listing. *)
Definition fanoutRequests (format : string) (pages : list ConfluencePage)
  : list Request :=
  map (fun p => GetContent (page_id p) (format ++ ",version,space")) pages.

End Spec.

(* ===================================================================== *)
(** ** Properties of the audit logger                                     *)
(* ===================================================================== *)

Module LoggerProofs.
Import Logger Spec.

(** Induction on JSON values that reaches below arrays and objects. *)
Lemma json_nested_ind (P : json -> Prop) :
  P JNull ->
  (forall b, P (JBool b)) ->
  (forall n, P (JNum n)) ->
  (forall s, P (JStr s)) ->
  (forall items, Forall P items -> P (JArr items)) ->
  (forall fields, Forall (fun kv => P (snd kv)) fields -> P (JObj fields)) ->
  forall v, P v.
Proof.
  intros Hnull Hbool Hnum Hstr Harr Hobj.
  fix IH 1.
  intros [ | b | n | s | items | fields ].
  - exact Hnull.
  - apply Hbool.
  - apply Hnum.
  - apply Hstr.
  - apply Harr. induction items as [ | x xs IHxs ]; constructor.
    + apply IH.
    + exact IHxs.
  - apply Hobj. induction fields as [ | [k x] xs IHxs ]; constructor.
    + apply IH.
    + exact IHxs.
Qed.








(** *** The trim routine *)

Lemma split_nl_not_nil (s : string) : Js.split_nl s <> [].
Proof.
  destruct s as [ | c s ]; simpl.
  - discriminate.
  - destruct (Ascii.eqb c Js.nl); [ discriminate | ].
    destruct (Js.split_nl s); discriminate.
Qed.

Lemma split_nl_no_nl (s : string) :
  Forall (fun l => no_nl l = true) (Js.split_nl s).
Proof.
  induction s as [ | c s IH ]; simpl.
  - repeat constructor.
  - destruct (Ascii.eqb c Js.nl) eqn:Hc.
    + constructor; [ reflexivity | exact IH ].
    + destruct (Js.split_nl s) as [ | h t ].
      * constructor; [ simpl; rewrite Hc; reflexivity | constructor ].
      * inversion IH; subst. constructor; [ | assumption ].
        simpl. rewrite Hc. assumption.
Qed.

Lemma join_split_nl (s : string) : Js.join_nl (Js.split_nl s) = s.
Proof.
  induction s as [ | c s IH ]; simpl.
  - reflexivity.
  - destruct (Ascii.eqb c Js.nl) eqn:Hc.
    + apply Ascii.eqb_eq in Hc. subst c.
      pose proof (split_nl_not_nil s) as Hne.
      destruct (Js.split_nl s) as [ | h t ]; [ congruence | ].
      change (Js.join_nl (EmptyString :: h :: t))
        with (String Js.nl (Js.join_nl (h :: t))).
      rewrite IH. reflexivity.
    + destruct (Js.split_nl s) as [ | h t ].
      * simpl in IH. subst s. reflexivity.
      * destruct t as [ | h' t' ]; simpl in *; rewrite <- IH; reflexivity.
Qed.

Lemma split_nl_line (l : string) (rest : list string) :
  no_nl l = true ->
  Js.split_nl (l ++ String Js.nl (Js.join_nl rest))
  = l :: Js.split_nl (Js.join_nl rest).
Proof.
  induction l as [ | c l IH ]; simpl; intros Hl.
  - reflexivity.
  - apply andb_true_iff in Hl. destruct Hl as [Hc Hl].
    apply negb_true_iff in Hc. rewrite Hc, (IH Hl). reflexivity.
Qed.

Lemma split_nl_single (l : string) :
  no_nl l = true -> Js.split_nl l = [l].
Proof.
  induction l as [ | c l IH ]; simpl; intros Hl.
  - reflexivity.
  - apply andb_true_iff in Hl. destruct Hl as [Hc Hl].
    apply negb_true_iff in Hc. rewrite Hc, (IH Hl). reflexivity.
Qed.

Lemma split_join_nl (ls : list string) :
  ls <> [] -> Forall (fun l => no_nl l = true) ls ->
  Js.split_nl (Js.join_nl ls) = ls.
Proof.
  induction ls as [ | l rest IH ]; intros Hne Hall; [ congruence | ].
  inversion Hall as [ | ? ? Hl Hrest ]; subst.
  destruct rest as [ | l' rest' ].
  - simpl. apply split_nl_single; assumption.
  - change (Js.join_nl (l :: l' :: rest'))
      with (l ++ String Js.nl (Js.join_nl (l' :: rest'))).
    rewrite split_nl_line by assumption.
    rewrite IH; [ reflexivity | discriminate | assumption ].
Qed.

Lemma div2_as_Z (n : nat) : Z.of_nat n / 2 = Z.of_nat (Nat.div2 n).
Proof. rewrite Nat.div2_div, Nat2Z.inj_div. reflexivity. Qed.

Lemma trimmedLines_small (lines : list string) :
  (length lines <= 1)%nat -> trimmedLines lines = lines.
Proof.
  intros Hn. unfold trimmedLines, Js.slice. rewrite div2_as_Z.
  destruct lines as [ | l [ | l' rest ] ]; simpl in *; try reflexivity; lia.
Qed.

Lemma trimmedLines_large (lines : list string) :
  (2 <= length lines)%nat ->
  trimmedLines lines
  = skipn (length lines - Nat.div2 (length lines)) lines.
Proof.
  intros Hn. unfold trimmedLines, Js.slice. rewrite div2_as_Z.
  set (n := length lines) in *.
  assert (Hdiv : (1 <= Nat.div2 n <= n)%nat).
  { rewrite Nat.div2_div. split.
    - apply Nat.div_le_lower_bound; lia.
    - apply Nat.Div0.div_le_upper_bound; lia. }
  replace (- Z.of_nat (Nat.div2 n) <? 0) with true
    by (symmetry; apply Z.ltb_lt; lia).
  f_equal. lia.
Qed.

Lemma trimmedLines_suffix (lines : list string) :
  exists dropped, lines = (dropped ++ trimmedLines lines)%list.
Proof.
  destruct (Nat.le_gt_cases (length lines) 1) as [Hs | Hl].
  - exists []. rewrite trimmedLines_small by assumption. reflexivity.
  - rewrite trimmedLines_large by lia.
    exists (firstn (length lines - Nat.div2 (length lines)) lines).
    symmetry. apply firstn_skipn.
Qed.

Lemma trimmedLines_not_nil (lines : list string) :
  lines <> [] -> trimmedLines lines <> [].
Proof.
  intros Hne. destruct (Nat.le_gt_cases (length lines) 1) as [Hs | Hl].
  - rewrite trimmedLines_small by assumption. exact Hne.
  - rewrite trimmedLines_large by lia. intros Hnil.
    apply (f_equal (@length string)) in Hnil. rewrite length_skipn in Hnil.
    simpl in Hnil.
    assert (1 <= Nat.div2 (length lines) <= length lines)%nat.
    { rewrite Nat.div2_div. split.
      - apply Nat.div_le_lower_bound; lia.
      - apply Nat.Div0.div_le_upper_bound; lia. }
    lia.
Qed.

Lemma last_suffix (dropped kept : list string) :
  kept <> [] ->
  last (dropped ++ kept)%list EmptyString = last kept EmptyString.
Proof.
  intros Hne. induction dropped as [ | d ds IH ]; simpl.
  - reflexivity.
  - rewrite <- IH. destruct (ds ++ kept)%list eqn:Happ; [ | reflexivity ].
    apply app_eq_nil in Happ. destruct Happ; congruence.
Qed.

Lemma trimmed_split (content : string) :
  Js.split_nl (Js.join_nl (trimmedLines (Js.split_nl content)))
  = trimmedLines (Js.split_nl content).
Proof.
  apply split_join_nl.
  - apply trimmedLines_not_nil, split_nl_not_nil.
  - destruct (trimmedLines_suffix (Js.split_nl content)) as [dropped Hd].
    pose proof (split_nl_no_nl content) as Hall.
    rewrite Hd in Hall. apply Forall_app in Hall. tauto.
Qed.


(** *** Claims about the logger *)



(** C9. The [params] field of a request entry is the query-parameter
    object as it was given: its fields, sensitive or not, are all in the
    entry with their own values, and that entry is the line appended to the
    log file.  Only [data] goes through [sanitizeData]. *)
Theorem logRequest_params_verbatim :
  forall (ts m u : string) (fields : list (string * json))
         (data : option json),
    let e := entry_json (logRequest_entry ts m u (Some (JObj fields)) data) in
    field "params" e = Some (JObj fields) /\
    (forall k v, In (k, v) fields -> has_field e k v) /\
    (forall stringify maxSize f,
        exists older,
          logRequest stringify maxSize ts m u (Some (JObj fields)) data f
          = Some (older ++ stringify e ++ String Js.nl EmptyString)).
Proof.
  intros ts m u fields data e. split; [ reflexivity | split ].
  - intros k v Hin. apply hf_under with (k' := "params") (d := JObj fields).
    + unfold e, entry_json, logRequest_entry. simpl.
      right; right; right; right; left; reflexivity.
    + apply hf_here; assumption.
  - intros stringify maxSize f. unfold logRequest, writeLog. fold e.
    destruct (checkAndTrimLogFile maxSize f) as [ old | ]; simpl.
    + exists old. reflexivity.
    + exists EmptyString. reflexivity.
Qed.

Lemma logRequest_params_verbatim_witness :
  has_field
    (entry_json
       (logRequest_entry "2024-01-01T00:00:00.000Z" "get" "/spaces"
                         (Some (JObj [("limit", JNum 50);
                                      ("token", JStr "s3cr3t")]))
                         None))
    "token" (JStr "s3cr3t").
Proof.
  destruct (logRequest_params_verbatim
              "2024-01-01T00:00:00.000Z" "get" "/spaces"
              [("limit", JNum 50); ("token", JStr "s3cr3t")] None)
    as [_ [Hfields _]].
  apply Hfields. right; left; reflexivity.
Defined.

(** C10. When the trim routine rewrites the log file, the lines of the new
    content are a suffix of the lines of the old one: the last [n / 2] of
    them when the file has [n >= 2] lines, all of them (the content is
    unchanged) when [n <= 1]; the last line is always kept. *)
Theorem checkAndTrimLogFile_keeps_trailing_lines :
  forall (maxSize : Z) (content : string),
    Z.of_nat (String.length content) > maxSize ->
    exists content',
      checkAndTrimLogFile maxSize (Some content) = Some content' /\
      (exists dropped,
          Js.split_nl content = (dropped ++ Js.split_nl content')%list) /\
      ((2 <= length (Js.split_nl content))%nat ->
       Js.split_nl content'
       = skipn (length (Js.split_nl content)
                - length (Js.split_nl content) / 2) (Js.split_nl content) /\
       length (Js.split_nl content')
       = (length (Js.split_nl content) / 2)%nat) /\
      ((length (Js.split_nl content) <= 1)%nat -> content' = content) /\
      last (Js.split_nl content') EmptyString
      = last (Js.split_nl content) EmptyString.
Proof.
  intros maxSize content Hsize.
  exists (Js.join_nl (trimmedLines (Js.split_nl content))).
  split.
  { simpl. replace (Z.of_nat (String.length content) >? maxSize) with true
      by (symmetry; apply Z.gtb_lt; lia). reflexivity. }
  rewrite trimmed_split.
  set (lines := Js.split_nl content).
  assert (Hhalf : (2 <= length lines ->
                   1 <= length lines / 2 <= length lines)%nat).
  { intros Hn. split.
    - apply Nat.div_le_lower_bound; lia.
    - apply Nat.Div0.div_le_upper_bound; lia. }
  split; [ apply trimmedLines_suffix | ]. split; [ | split ].
  - intros Hn. rewrite trimmedLines_large by assumption.
    rewrite Nat.div2_div. split; [ reflexivity | ].
    rewrite length_skipn. specialize (Hhalf Hn). lia.
  - intros Hn. rewrite trimmedLines_small by assumption.
    apply join_split_nl.
  - destruct (trimmedLines_suffix lines) as [dropped Hd].
    rewrite Hd at 2. symmetry. apply last_suffix.
    apply trimmedLines_not_nil, split_nl_not_nil.
Qed.

Lemma checkAndTrimLogFile_keeps_trailing_lines_witness :
  exists content',
    checkAndTrimLogFile 3 (Some (Js.join_nl ["a"; "b"; "c"; "d"; "e"]))
    = Some content' /\
    Js.split_nl content' = ["d"; "e"].
Proof.
  destruct (checkAndTrimLogFile_keeps_trailing_lines
              3 (Js.join_nl ["a"; "b"; "c"; "d"; "e"]))
    as [content' [Hrun [_ [Hlarge _]]]].
  - vm_compute. reflexivity.
  - exists content'. split; [ exact Hrun | ].
    apply Hlarge. vm_compute. lia.
Defined.

End LoggerProofs.

(* ===================================================================== *)
(** ** Properties of the client                                           *)
(* ===================================================================== *)

Module ClientProofs.
Import Client Run Spec.

(** *** Maps and the access validator *)

Lemma validateSpaceAccess_In (k : string) (allowedKeys : list string) :
  validateSpaceAccess k allowedKeys = true <-> In k allowedKeys.
Proof.
  unfold validateSpaceAccess.
  induction allowedKeys as [ | a rest IH ]; simpl.
  - split; [ discriminate | tauto ].
  - rewrite orb_true_iff, String.eqb_eq, IH. tauto.
Qed.

Lemma map_get_set_same {V} (k : string) (v : V) (m : list (string * V)) :
  Js.map_get k (Js.map_set k v m) = Some v.
Proof.
  induction m as [ | [k' v'] m IH ]; simpl.
  - rewrite String.eqb_refl. reflexivity.
  - destruct (String.eqb k' k) eqn:Hk; simpl.
    + rewrite String.eqb_refl. reflexivity.
    + rewrite Hk. exact IH.
Qed.

Lemma map_get_set_other {V} (k k0 : string) (v : V) (m : list (string * V)) :
  k0 <> k -> Js.map_get k (Js.map_set k0 v m) = Js.map_get k m.
Proof.
  intros Hne. apply String.eqb_neq in Hne.
  induction m as [ | [k' v'] m IH ]; simpl.
  - rewrite Hne. reflexivity.
  - destruct (String.eqb k' k0) eqn:Hk; simpl.
    + apply String.eqb_eq in Hk. subst k'. rewrite Hne. reflexivity.
    + rewrite IH. reflexivity.
Qed.

Lemma map_get_In {V} (k : string) (v : V) (m : list (string * V)) :
  Js.map_get k m = Some v -> In (k, v) m.
Proof.
  induction m as [ | [k' v'] m IH ]; simpl; [ discriminate | ].
  destruct (String.eqb k' k) eqn:Hk.
  - apply String.eqb_eq in Hk. intros H. inversion H; subst. left; reflexivity.
  - intros H. right. apply IH; assumption.
Qed.

Lemma map_set_In {V} (k k0 : string) (v v0 : V) (m : list (string * V)) :
  In (k, v) (Js.map_set k0 v0 m) -> (k, v) = (k0, v0) \/ In (k, v) m.
Proof.
  induction m as [ | [k' v'] m IH ]; simpl.
  - intros [H | []]. left. symmetry. exact H.
  - destruct (String.eqb k' k0); simpl.
    + intros [H | H]; [ left; symmetry; exact H | right; right; exact H ].
    + intros [H | H]; [ right; left; exact H | ].
      destruct (IH H) as [H' | H']; [ left; exact H' | right; right; exact H' ].
Qed.

Lemma find_some {A} (p : A -> bool) (xs : list A) (x : A) :
  Js.find p xs = Some x -> In x xs /\ p x = true.
Proof.
  induction xs as [ | y ys IH ]; simpl; [ discriminate | ].
  destruct (p y) eqn:Hp.
  - intros H. inversion H; subst. split; [ left; reflexivity | exact Hp ].
  - intros H. destruct (IH H). split; [ right; assumption | assumption ].
Qed.

Section WithEnv.
Context (E : Env) (config : ConfluenceConfig).

(** *** What the transport leaves untouched *)

Lemma debug_console_frame (m : ConsoleMsg) (s : St E) :
  world (debug_console E config m s) = world s /\
  spaceCache (debug_console E config m s) = spaceCache s /\
  spaceCacheExpiry (debug_console E config m s) = spaceCacheExpiry s /\
  calls (debug_console E config m s) = calls s /\
  audit (debug_console E config m s) = audit s.
Proof.
  unfold debug_console. destruct (debug config); simpl; repeat split.
Qed.

(** A request through the global [axios]: the reply decides the outcome,
    the request is recorded, and nothing else changes but the world. *)
Lemma axios_get_run {A} (send : Request -> World E -> Reply A * World E)
      (r : Request) (s : St E) :
  exists s',
    axios_get E send r s
    = (match fst (send r (world s)) with
       | inr a => Ok a
       | inl e => Throw (AxiosFailure e)
       end, s') /\
    world s' = snd (send r (world s)) /\
    same_cache s s' /\
    calls s' = (calls s ++ [r])%list /\
    console s' = console s /\
    audit s' = audit s.
Proof.
  unfold axios_get. simpl.
  destruct (send r (world s)) as [[e | a] w]; simpl;
    eexists; (split; [ reflexivity | ]); simpl; repeat split.
Qed.

(** A request through [this.client]: as above, and the interceptors log
    the request and its reply (to the audit log, and in debug mode to the
    console). *)
Lemma client_send_run {A} (send : Request -> World E -> Reply A * World E)
      (r : Request) (s : St E) :
  exists s',
    client_send E config send r s
    = (match fst (send r (world s)) with
       | inr a => Ok a
       | inl e => Throw (AxiosFailure e)
       end, s') /\
    world s' = snd (send r (world s)) /\
    same_cache s s' /\
    calls s' = (calls s ++ [r])%list /\
    console s'
    = (console s ++
       if debug config
       then [ConsoleLog "Confluence API Request:";
             match fst (send r (world s)) with
             | inr _ => ConsoleLog "Confluence API Response:"
             | inl _ => ConsoleError "Confluence API Error:"
             end]
       else [])%list /\
    audit s'
    = (audit s ++
       [AuditRequest r;
        match fst (send r (world s)) with
        | inr _ => AuditResponse r
        | inl e => AuditError r e
        end])%list.
Proof.
  unfold client_send, debug_console.
  destruct (debug config); simpl;
    destruct (send r (world s)) as [[e | a] w]; simpl;
    eexists; (split; [ reflexivity | ]); simpl;
    rewrite <- ?app_assoc, ?app_nil_r; repeat split.
Qed.

Lemma cacheSpaces_run (spaces : list ConfluenceSpace) (s : St E) :
  cacheSpaces E spaces s
  = (Ok tt, fold_left (fun st sp => cacheSpace_st E sp st) spaces s).
Proof.
  revert s. induction spaces as [ | sp rest IH ]; intros s; simpl.
  - reflexivity.
  - unfold bind, cacheSpace. apply IH.
Qed.

Lemma cacheSpaces_frame (spaces : list ConfluenceSpace) (s : St E) :
  let s' := fold_left (fun st sp => cacheSpace_st E sp st) spaces s in
  world s' = world s /\ calls s' = calls s /\
  console s' = console s /\ audit s' = audit s.
Proof.
  revert s. induction spaces as [ | sp rest IH ]; intros s; simpl.
  - repeat split.
  - destruct (IH (cacheSpace_st E sp s)) as [Hw [Hc [Ho Ha]]].
    simpl in *. repeat split; assumption.
Qed.

(** What [listSpaces] does once the remote system has answered. *)
Lemma listSpaces_run (limit : Z) (cursor : option string) (s : St E) :
  let request :=
    GetSpaces limit (if Js.truthy_ostr cursor then cursor else None) in
  exists s1,
    client_send E config (http_spaces E) request s
    = (match fst (http_spaces E request (world s)) with
       | inr a => Ok a
       | inl e => Throw (AxiosFailure e)
       end, s1) /\
    world s1 = snd (http_spaces E request (world s)) /\
    same_cache s s1 /\
    calls s1 = (calls s ++ [request])%list /\
    listSpaces E config limit cursor s
    = match fst (http_spaces E request (world s)) with
      | inr data =>
          let kept :=
            filter (fun sp => allowed config (space_key sp)) (results data) in
          (Ok {| results := kept; size := Z.of_nat (length kept);
                 links_next := links_next data; other := other data |},
           fold_left (fun st sp => cacheSpace_st E sp st) kept s1)
      | inl e => (Throw (AxiosFailure e), s1)
      end.
Proof.
  intros request.
  destruct (client_send_run (http_spaces E) request s)
    as [s1 [Hrun [Hw [Hcache [Hcalls _]]]]].
  exists s1. repeat split; try assumption; try apply Hcache.
  unfold listSpaces, bind. fold request. rewrite Hrun.
  destruct (fst (http_spaces E request (world s))) as [e | data].
  - reflexivity.
  - rewrite cacheSpaces_run. reflexivity.
Qed.

(** *** Claims about access control and validation *)

(** C2. Whatever list of spaces the remote system answers with,
    [listSpaces] returns exactly its members whose key is in the allowlist
    (string equality), in the order received, and reports their number as
    [size], whatever [size] the remote answer carried. *)
Theorem listSpaces_returns_allowed_spaces_only :
  forall (limit : Z) (cursor : option string) (s : St E)
         (data : PaginatedResult ConfluenceSpace),
    fst (http_spaces E
           (GetSpaces limit (if Js.truthy_ostr cursor then cursor else None))
           (world s)) = inr data ->
    exists r s',
      listSpaces E config limit cursor s = (Ok r, s') /\
      results r
      = filter (fun sp => validateSpaceAccess (space_key sp)
                                              (allowedSpaces config))
               (results data) /\
      (forall sp, In sp (results r) <->
                  In sp (results data) /\
                  In (space_key sp) (allowedSpaces config)) /\
      size r = Z.of_nat (length (results r)).
Proof.
  intros limit cursor s data Hreply.
  destruct (listSpaces_run limit cursor s) as [s1 [_ [_ [_ [_ Hrun]]]]].
  rewrite Hreply in Hrun. simpl in Hrun.
  eexists. eexists. split; [ exact Hrun | ]. simpl.
  split; [ reflexivity | ]. split; [ | reflexivity ].
  intros sp. rewrite filter_In. unfold allowed.
  rewrite validateSpaceAccess_In. tauto.
Qed.

(** C7. A [search_confluence] request that gives neither a query nor a
    title is answered by the dispatcher with an error, wrapped as every
    tool error is, no request has been sent, and the world, the caches and
    the audit log are as they were.  When the request carries an arguments
    object in which [query] and [title] are both missing (or empty), the
    error is the validation error; when it carries no arguments object at
    all, the handler fails earlier, where it destructures the arguments,
    and the error is that of the destructuring. *)
Theorem search_without_query_or_title_is_rejected :
  forall (fuel : nat) (s : St E),
    (forall (query title spaceKey : option string) (limit start : option Z)
            (bodyFormat : option string),
        Js.truthy_ostr query = false ->
        Js.truthy_ostr title = false ->
        exists s',
          Dispatcher.handleRequest E config fuel
            (Dispatcher.with_arguments
               (Dispatcher.search_confluence query title spaceKey limit start
                                             bodyFormat)) s
          = (Throw (McpError InternalError
                      ("Error executing search_confluence: At least one of "
                         ++ quoted "query" ++ " or " ++ quoted "title"
                         ++ " must be provided")), s') /\
          calls s' = calls s /\ world s' = world s /\
          same_cache s s' /\ audit s' = audit s) /\
    (exists s',
        Dispatcher.handleRequest E config fuel
          (Dispatcher.without_arguments "search_confluence") s
        = (Throw (McpError InternalError
                    ("Error executing search_confluence: "
                       ++ "Cannot destructure property 'query' of 'args' "
                       ++ "as it is undefined.")), s') /\
        calls s' = calls s /\ world s' = world s /\
        same_cache s s' /\ audit s' = audit s).
Proof.
  intros fuel s.
  destruct (debug_console_frame (ConsoleError "Tool execution error:") s)
    as [Hw [Hc [He [Hcalls Ha]]]].
  split.
  - intros query title spaceKey limit start bodyFormat Hq Ht.
    unfold Dispatcher.handleRequest, Dispatcher.runRequest,
      Dispatcher.runTool.
    rewrite Hq, Ht. simpl.
    eexists. split; [ reflexivity | ].
    unfold same_cache. repeat split; assumption.
  - eexists. split; [ reflexivity | ].
    unfold same_cache. repeat split; assumption.
Qed.

(** What [getPage] does once the remote system has answered: one GET is
    recorded and the page is returned only if its space is allowed. *)
Lemma getPage_run (pageId : string) (bodyFormat : option string) (s : St E) :
  let request :=
    GetContent pageId
      (if Js.truthy_ostr bodyFormat
       then "space,version" ++ "," ++ bodyExpand (ostr bodyFormat)
       else "space,version") in
  exists s1,
    world s1 = snd (http_page E request (world s)) /\
    same_cache s s1 /\
    calls s1 = (calls s ++ [request])%list /\
    console s1 = console s /\
    audit s1 = audit s /\
    getPage E config pageId bodyFormat s
    = (match fst (http_page E request (world s)) with
       | inl e => Throw (AxiosFailure e)
       | inr data =>
           if negb (Js.truthy_ostr (page_space data))
           then Throw no_space_error
           else if negb (allowed config (ostr (page_space data)))
                then Throw (Error ("Access denied to space: "
                                     ++ ostr (page_space data)))
                else Ok data
       end, s1).
Proof.
  intros request.
  destruct (axios_get_run (http_page E) request s)
    as [s1 [Hrun [Hw [Hcache [Hcalls [Hcons Haud]]]]]].
  exists s1. repeat split; try assumption; try apply Hcache.
  unfold getPage, bind. fold request. rewrite Hrun.
  destruct (fst (http_page E request (world s))) as [e | data];
    [ reflexivity | ].
  destruct (negb (Js.truthy_ostr (page_space data))); [ reflexivity | ].
  destruct (negb (allowed config (ostr (page_space data)))); reflexivity.
Qed.



(** C4. When the page is in an allowed space and the remote system rejects
    the write, [updatePage] has sent the version number it was called with
    and [movePage] the version number of the page it fetched; the method
    throws the very rejection it received, and the fetch and that one PUT
    are all it sent: nothing is fetched again and nothing is sent twice.
    The dispatcher reports the rejection's message as it is, after the
    name of the tool. *)
Theorem version_conflict_is_surfaced_unchanged :
  forall (pageId : string) (page : ConfluencePage) (s : St E)
         (w1 : World E) (e : AxiosError),
    http_page E (GetContent pageId "space,version") (world s)
    = (inr page, w1) ->
    Js.truthy_ostr (page_space page) = true ->
    validateSpaceAccess (ostr (page_space page)) (allowedSpaces config)
    = true ->
    (forall title content_ version fuel,
        let put :=
          PutPageUpdate pageId
            {| up_id := pageId; up_status := "current"; up_title := title;
               up_type := "page"; up_version_number := version;
               up_body_storage_value := content_;
               up_body_storage_representation := "storage" |} in
        fst (http_page E put w1) = inl e ->
        exists s',
          updatePage E config pageId title content_ version s
          = (Throw (AxiosFailure e), s') /\
          calls s'
          = (calls s ++ [GetContent pageId "space,version"; put])%list /\
          world s' = snd (http_page E put w1) /\
          exists s'',
            Dispatcher.callTool E config fuel
              (Dispatcher.update_page pageId title content_ version) s
            = (Throw (McpError InternalError
                        ("Error executing update_page: " ++ ax_message e)),
               s'') /\
            calls s'' = calls s' /\ world s'' = world s') /\
    (forall target parentId fuel,
        validateSpaceAccess target (allowedSpaces config) = true ->
        let put :=
          PutPageMove pageId
            {| mv_version_number := page_version page;
               mv_title := page_title page; mv_type := "page";
               mv_space_key := target;
               mv_ancestors := if Js.truthy_ostr parentId
                               then Some [ostr parentId] else None |} in
        fst (http_page E put w1) = inl e ->
        exists s',
          movePage E config pageId target parentId s
          = (Throw (AxiosFailure e), s') /\
          calls s'
          = (calls s ++ [GetContent pageId "space,version"; put])%list /\
          world s' = snd (http_page E put w1) /\
          exists s'',
            Dispatcher.callTool E config fuel
              (Dispatcher.move_page pageId target parentId) s
            = (Throw (McpError InternalError
                        ("Error executing move_page: " ++ ax_message e)),
               s'') /\
            calls s'' = calls s' /\ world s'' = world s').
Proof.
  intros pageId page s w1 e Hreply Htruthy Hallowed.
  change (validateSpaceAccess (ostr (page_space page)) (allowedSpaces config))
    with (allowed config (ostr (page_space page))) in Hallowed.
  destruct (getPage_run pageId None s)
    as [s1 [Hw [_ [Hcalls [_ [_ Hrun]]]]]].
  simpl in Hw, Hcalls, Hrun. rewrite Hreply in Hw, Hrun. simpl in Hw, Hrun.
  rewrite Htruthy, Hallowed in Hrun. simpl in Hrun.
  split.
  - intros title content_ version fuel put Hput.
    destruct (client_send_run (http_page E) put s1)
      as [s2 [Hsend [Hw2 [_ [Hcalls2 _]]]]].
    rewrite Hw in Hsend, Hw2. rewrite Hput in Hsend.
    assert (Hupd : updatePage E config pageId title content_ version s
                   = (Throw (AxiosFailure e), s2)).
    { unfold updatePage, bind. rewrite Hrun.
      unfold checkPageSpace. rewrite Htruthy, Hallowed. simpl.
      fold put. rewrite Hsend. reflexivity. }
    exists s2. split; [ exact Hupd | ].
    split; [ rewrite Hcalls2, Hcalls, <- app_assoc; reflexivity | ].
    split; [ exact Hw2 | ].
    eexists. unfold Dispatcher.callTool, Dispatcher.runTool, bind.
    rewrite Hupd. split; [ reflexivity | ].
    destruct (debug_console_frame (ConsoleError "Tool execution error:") s2)
      as [Hdw [_ [_ [Hdc _]]]].
    split; assumption.
  - intros target parentId fuel Htarget put Hput.
    change (validateSpaceAccess target (allowedSpaces config))
      with (allowed config target) in Htarget.
    destruct (client_send_run (http_page E) put s1)
      as [s2 [Hsend [Hw2 [_ [Hcalls2 _]]]]].
    rewrite Hw in Hsend, Hw2. rewrite Hput in Hsend.
    assert (Hmv : movePage E config pageId target parentId s
                  = (Throw (AxiosFailure e), s2)).
    { unfold movePage, bind. rewrite Hrun.
      unfold checkPageSpace. rewrite Htruthy, Hallowed. simpl.
      rewrite Htarget. simpl. fold put. rewrite Hsend. reflexivity. }
    exists s2. split; [ exact Hmv | ].
    split; [ rewrite Hcalls2, Hcalls, <- app_assoc; reflexivity | ].
    split; [ exact Hw2 | ].
    eexists. unfold Dispatcher.callTool, Dispatcher.runTool, bind.
    rewrite Hmv. split; [ reflexivity | ].
    destruct (debug_console_frame (ConsoleError "Tool execution error:") s2)
      as [Hdw [_ [_ [Hdc _]]]].
    split; assumption.
Qed.

(** *** Body enrichment *)

Lemma enrichPage_run (format : string) (page : ConfluencePage) (s : St E) :
  let request := GetContent (page_id page) (format ++ ",version,space") in
  exists page' s1,
    enrichPage E config format page s = (Ok page', s1) /\
    world s1 = snd (http_page E request (world s)) /\
    same_cache s s1 /\
    audit s1 = audit s /\
    match fst (http_page E request (world s)) with
    | inl _ =>
        page' = page /\
        console s1
        = (console s ++ if debug config then [bodyWarning page] else [])%list
    | inr _ => console s1 = console s
    end.
Proof.
  intros request. unfold enrichPage. fold request.
  destruct (axios_get_run (http_page E) request s)
    as [s1 [Hrun [Hw [Hcache [_ [Hcons Haud]]]]]].
  rewrite Hrun.
  destruct (fst (http_page E request (world s))) as [e | v1].
  - destruct (debug_console_frame (bodyWarning page) s1)
      as [Hdw [Hdc [Hde [_ Hda]]]].
    exists page, (debug_console E config (bodyWarning page) s1).
    split; [ reflexivity | ]. split; [ congruence | ].
    split; [ destruct Hcache; split; congruence | ].
    split; [ congruence | ]. split; [ reflexivity | ].
    unfold debug_console. destruct (debug config); simpl; rewrite Hcons.
    + reflexivity.
    + rewrite app_nil_r. reflexivity.
  - assert (Hstep :
              exists page',
                match page_body v1 with
                | Some body =>
                    if truthy body
                    then (Ok (with_body body page), s1)
                    else (Ok page, s1)
                | None => (Ok page, s1)
                end = (Ok page', s1)).
    { destruct (page_body v1) as [body | ];
        [ destruct (truthy body) | ]; eexists; reflexivity. }
    destruct Hstep as [page' Hstep]. rewrite Hstep.
    exists page', s1. repeat split; try assumption; apply Hcache.
Qed.

(** The fan-out never throws: it returns as many pages as it was given,
    a page whose fetch was rejected comes back as it was, and the console
    gets the warnings in debug mode only. *)
Lemma enrichAll_run (format : string) (pages : list ConfluencePage) :
  forall (s : St E),
    exists pages' s',
      enrichAll E config format pages s = (Ok pages', s') /\
      length pages' = length pages /\
      (forall i page e,
          nth_error pages i = Some page ->
          nth_error (fst (fanoutReplies E format pages (world s))) i
          = Some (inl e) ->
          nth_error pages' i = Some page) /\
      world s' = snd (fanoutReplies E format pages (world s)) /\
      same_cache s s' /\
      console s'
      = (console s ++
         if debug config
         then failureWarnings pages
                (fst (fanoutReplies E format pages (world s)))
         else [])%list /\
      audit s' = audit s.
Proof.
  induction pages as [ | page rest IH ]; intros s.
  - exists [], s. cbn [enrichAll fanoutReplies failureWarnings fst snd].
    unfold ret, same_cache.
    destruct (debug config); rewrite app_nil_r; repeat split.
    all: intros [ | i ] page e H; simpl in H; discriminate.
  - cbn [enrichAll fanoutReplies]. unfold bind.
    destruct (enrichPage_run format page s)
      as [page' [s1 [Hrun [Hw [Hcache [Haud Hcase]]]]]].
    cbv zeta in Hw, Hcase. rewrite Hrun.
    destruct (IH s1)
      as [rest' [s2 [Hrest [Hlen [Hnth [Hw2 [Hcache2 [Hcons2 Haud2]]]]]]]].
    rewrite Hrest. rewrite Hw in Hw2, Hnth, Hcons2.
    destruct (http_page E (GetContent (page_id page)
                                      (format ++ ",version,space"))
                        (world s)) as [reply w1].
    cbn [fst snd] in *. subst w1.
    destruct (fanoutReplies E format rest (world s1)) as [replies w2].
    cbn [fst snd] in *.
    exists (page' :: rest'), s2. unfold ret.
    split; [ reflexivity | ]. split; [ simpl; congruence | ].
    split; [ | split; [ exact Hw2 | split; [ | split ] ] ].
    + intros [ | i ] page0 e0 Hp Hr; cbn [nth_error] in *.
      * destruct reply as [e | v1]; [ | discriminate ].
        destruct Hcase as [Hsame _]. congruence.
      * eapply Hnth; eauto.
    + destruct Hcache as [H1 H2], Hcache2 as [H3 H4]. unfold same_cache.
      rewrite H3, H4. split; assumption.
    + rewrite Hcons2. destruct reply as [e | v1]; cbn [failureWarnings].
      * destruct Hcase as [_ Hcons]. rewrite Hcons.
        destruct (debug config); rewrite <- app_assoc; reflexivity.
      * rewrite Hcase. reflexivity.
    + rewrite Haud2. exact Haud.
Qed.

Lemma enrichListing_run (bodyFormat : option string)
      (data : PaginatedResult ConfluencePage) (s : St E) :
  Js.truthy_ostr bodyFormat = true ->
  let format := bodyExpand (ostr bodyFormat) in
  exists r s',
    enrichListing E config bodyFormat data s = (Ok r, s') /\
    length (results r) = length (results data) /\
    (forall i page e,
        nth_error (results data) i = Some page ->
        nth_error (fst (fanoutReplies E format (results data) (world s))) i
        = Some (inl e) ->
        nth_error (results r) i = Some page) /\
    same_cache s s' /\
    console s'
    = (console s ++
       if debug config
       then failureWarnings (results data)
              (fst (fanoutReplies E format (results data) (world s)))
       else [])%list /\
    audit s' = audit s.
Proof.
  intros Hfmt format. unfold enrichListing. rewrite Hfmt.
  destruct (0 <? Z.of_nat (length (results data))) eqn:Hlen; cbn [andb].
  - unfold bind. subst format.
    destruct (enrichAll_run (bodyExpand (ostr bodyFormat)) (results data) s)
      as [pages' [s' [Hrun [Hl [Hnth [_ [Hcache [Hcons Haud]]]]]]]].
    rewrite Hrun. eexists. exists s'. unfold ret.
    split; [ reflexivity | ]. simpl. repeat split; try assumption;
      apply Hcache.
  - exists data, s. unfold ret.
    assert (Hnil : results data = []).
    { revert Hlen. destruct (results data); [ reflexivity | ].
      intros Hlen. apply Z.ltb_ge in Hlen. simpl length in Hlen. lia. }
    rewrite Hnil. simpl.
    split; [ reflexivity | ]. split; [ reflexivity | ].
    split; [ intros [ | i ] page e H; discriminate | ].
    split; [ split; reflexivity | ].
    split; [ destruct (debug config); rewrite app_nil_r; reflexivity
           | reflexivity ].
Qed.

(** C6 (amended). With a body format requested, [getSpaceContent] and
    [getPageChildren] return the whole listing whichever body fetches are
    rejected: the result has as many pages as the basic listing, and a
    page whose fetch was rejected is returned as the basic listing had it,
    with no body attached.  The rejection is caught; a warning for it is
    written to the console in debug mode, and nothing is written for it
    otherwise; the audit log never records it. *)
Theorem body_fetch_failure_is_not_fatal :
  forall (bodyFormat : option string),
    Js.truthy_ostr bodyFormat = true ->
    let format := bodyExpand (ostr bodyFormat) in
    (forall spaceKey limit start s data w,
        validateSpaceAccess spaceKey (allowedSpaces config) = true ->
        http_pages E (GetPages spaceKey limit start) (world s)
        = (inr data, w) ->
        let replies := fst (fanoutReplies E format (results data) w) in
        exists r s',
          getSpaceContent E config spaceKey limit start bodyFormat s
          = (Ok r, s') /\
          length (results r) = length (results data) /\
          (forall i page e,
              nth_error (results data) i = Some page ->
              nth_error replies i = Some (inl e) ->
              nth_error (results r) i = Some page) /\
          console s'
          = (console s ++
             if debug config
             then [ConsoleLog "Confluence API Request:";
                   ConsoleLog "Confluence API Response:"]
                  ++ failureWarnings (results data) replies
             else [])%list /\
          audit s'
          = (audit s ++ [AuditRequest (GetPages spaceKey limit start);
                         AuditResponse (GetPages spaceKey limit start)])%list) /\
    (forall pageId limit start s parent w0 data w,
        http_page E (GetContent pageId "space,version") (world s)
        = (inr parent, w0) ->
        Js.truthy_ostr (page_space parent) = true ->
        validateSpaceAccess (ostr (page_space parent)) (allowedSpaces config)
        = true ->
        http_pages E (GetChildren pageId limit start) w0 = (inr data, w) ->
        let replies := fst (fanoutReplies E format (results data) w) in
        exists r s',
          getPageChildren E config pageId limit start bodyFormat s
          = (Ok r, s') /\
          length (results r) = length (results data) /\
          (forall i page e,
              nth_error (results data) i = Some page ->
              nth_error replies i = Some (inl e) ->
              nth_error (results r) i = Some page) /\
          console s'
          = (console s ++
             if debug config
             then [ConsoleLog "Confluence API Request:";
                   ConsoleLog "Confluence API Response:"]
                  ++ failureWarnings (results data) replies
             else [])%list /\
          audit s'
          = (audit s ++ [AuditRequest (GetChildren pageId limit start);
                         AuditResponse (GetChildren pageId limit start)])%list).
Proof.
  intros bodyFormat Hfmt format. split.
  - intros spaceKey limit start s data w Hallowed Hreply replies.
    change (validateSpaceAccess spaceKey (allowedSpaces config))
      with (allowed config spaceKey) in Hallowed.
    destruct (client_send_run (http_pages E) (GetPages spaceKey limit start) s)
      as [s1 [Hsend [Hw [_ [_ [Hcons Haud]]]]]].
    rewrite Hreply in Hsend, Hw, Hcons, Haud. cbn [fst snd] in *.
    destruct (enrichListing_run bodyFormat data s1 Hfmt)
      as [r [s2 [Hrun [Hlen [Hnth [_ [Hcons2 Haud2]]]]]]].
    rewrite Hw in Hnth, Hcons2.
    exists r, s2.
    split; [ unfold getSpaceContent, bind; rewrite Hallowed; cbn [negb];
             cbv beta iota; rewrite Hsend; exact Hrun | ].
    split; [ exact Hlen | ]. split; [ exact Hnth | ].
    split; [ | rewrite Haud2; exact Haud ].
    rewrite Hcons2, Hcons. fold format replies.
    destruct (debug config); rewrite <- app_assoc; reflexivity.
  - intros pageId limit start s parent w0 data w Hget Htruthy Hallowed
           Hreply replies.
    change (validateSpaceAccess (ostr (page_space parent))
                                (allowedSpaces config))
      with (allowed config (ostr (page_space parent))) in Hallowed.
    destruct (getPage_run pageId None s)
      as [s0 [Hw0 [_ [_ [Hcons0 [Haud0 Hpage]]]]]].
    simpl in Hw0, Hpage. rewrite Hget in Hw0, Hpage. cbn [fst snd] in *.
    rewrite Htruthy, Hallowed in Hpage. simpl in Hpage.
    destruct (client_send_run (http_pages E)
                              (GetChildren pageId limit start) s0)
      as [s1 [Hsend [Hw [_ [_ [Hcons Haud]]]]]].
    rewrite Hw0, Hreply in Hsend, Hw, Hcons, Haud. cbn [fst snd] in *.
    destruct (enrichListing_run bodyFormat data s1 Hfmt)
      as [r [s2 [Hrun [Hlen [Hnth [_ [Hcons2 Haud2]]]]]]].
    rewrite Hw in Hnth, Hcons2.
    exists r, s2.
    split.
    { unfold getPageChildren, bind. rewrite Hpage.
      unfold checkPageSpace. rewrite Htruthy, Hallowed. simpl.
      rewrite Hsend. exact Hrun. }
    split; [ exact Hlen | ]. split; [ exact Hnth | ].
    split; [ | rewrite Haud2, Haud, Haud0; reflexivity ].
    rewrite Hcons2, Hcons, Hcons0. fold format replies.
    destruct (debug config); rewrite <- app_assoc; reflexivity.
Qed.

(** *** The space cache *)

Lemma cacheSpace_st_cachedNow (sp : ConfluenceSpace) (s : St E) :
  cachedNow (space_key sp) (cacheSpace_st E sp s).
Proof.
  unfold cachedNow, cacheSpace_st. simpl. split.
  - exists sp. apply map_get_set_same.
  - apply map_get_set_same.
Qed.

Lemma cacheSpace_st_keeps (k : string) (sp : ConfluenceSpace) (s : St E) :
  cachedNow k s -> cachedNow k (cacheSpace_st E sp s).
Proof.
  intros [[sp0 Hc] He].
  destruct (String.eqb (space_key sp) k) eqn:Hk.
  - apply String.eqb_eq in Hk. subst k. apply cacheSpace_st_cachedNow.
  - apply String.eqb_neq in Hk. unfold cachedNow, cacheSpace_st. simpl.
    rewrite !map_get_set_other by assumption. split; [ exists sp0 | ];
      assumption.
Qed.

Lemma cacheSpaces_cachedNow (spaces : list ConfluenceSpace) :
  forall (s : St E) (k : string),
    cachedNow k s \/ (exists sp, In sp spaces /\ space_key sp = k) ->
    cachedNow k (fold_left (fun st sp => cacheSpace_st E sp st) spaces s).
Proof.
  induction spaces as [ | sp0 rest IH ]; intros s k H; simpl.
  - destruct H as [H | [sp [[] _]]]. exact H.
  - apply IH. destruct H as [H | [sp [[Heq | Hin] Hkey]]].
    + left. apply cacheSpace_st_keeps; assumption.
    + left. subst sp0 k. apply cacheSpace_st_cachedNow.
    + right. exists sp. split; assumption.
Qed.

Lemma cacheAllowed_same (s s' : St E) :
  spaceCache s' = spaceCache s ->
  cacheAllowed E config s -> cacheAllowed E config s'.
Proof. unfold cacheAllowed. intros H Hs. rewrite H. exact Hs. Qed.

Lemma cacheSpace_st_allowed (sp : ConfluenceSpace) (s : St E) :
  allowed config (space_key sp) = true ->
  cacheAllowed E config s -> cacheAllowed E config (cacheSpace_st E sp s).
Proof.
  intros Hsp Hs k sp0 Hin. unfold cacheSpace_st in Hin. simpl in Hin.
  apply map_set_In in Hin. destruct Hin as [Heq | Hin].
  - inversion Heq; subst. split; [ reflexivity | exact Hsp ].
  - apply Hs; assumption.
Qed.

Lemma cacheSpaces_allowed (spaces : list ConfluenceSpace) :
  forall (s : St E),
    Forall (fun sp => allowed config (space_key sp) = true) spaces ->
    cacheAllowed E config s ->
    cacheAllowed E config
                 (fold_left (fun st sp => cacheSpace_st E sp st) spaces s).
Proof.
  induction spaces as [ | sp rest IH ]; intros s Hall Hs; simpl.
  - exact Hs.
  - inversion Hall; subst. apply IH; [ assumption | ].
    apply cacheSpace_st_allowed; assumption.
Qed.

Lemma filter_allowed (spaces : list ConfluenceSpace) :
  Forall (fun sp => allowed config (space_key sp) = true)
         (filter (fun sp => allowed config (space_key sp)) spaces).
Proof.
  apply Forall_forall. intros sp Hin. apply filter_In in Hin. tauto.
Qed.

Lemma findSpace_S (fuel : nat) (k : string) (cursor : option string) :
  findSpace E config (S fuel) k cursor
  = bind E (listSpaces E config 100 cursor)
         (fun spaces =>
            match Js.find (fun s => String.eqb (space_key s) k)
                          (results spaces) with
            | Some space => ret E space
            | None =>
                bind E (nextCursor E spaces)
                     (fun cursor' =>
                        if Js.truthy_ostr cursor'
                        then findSpace E config fuel k cursor'
                        else throw E (Error ("Space not found: " ++ k)))
            end).
Proof. reflexivity. Qed.

(** The paging loop: when it finds the space, that space is filed under
    the key that was asked for, the cache holds an entry for the key
    stamped at the time of the answer, and the first request it sent asks
    for the spaces at the cursor it was started with. *)
Lemma findSpace_found (fuel : nat) (k : string) :
  forall (cursor : option string) (s : St E) (sp : ConfluenceSpace)
         (s' : St E),
    findSpace E config fuel k cursor s = (Ok sp, s') ->
    space_key sp = k /\ cachedNow k s'.
Proof.
  induction fuel as [ | fuel IH ]; intros cursor s sp s' Hrun.
  - discriminate.
  - rewrite findSpace_S in Hrun. unfold bind in Hrun.
    destruct (listSpaces_run 100 cursor s) as [s1 [_ [_ [_ [_ Hlist]]]]].
    cbv zeta in Hlist. rewrite Hlist in Hrun. clear Hlist.
    destruct (fst (http_spaces E _ (world s))) as [e | data];
      [ discriminate | ].
    cbv zeta in Hrun. cbn [results] in Hrun.
    set (kept := filter (fun sp => allowed config (space_key sp))
                        (results data)) in *.
    destruct (Js.find (fun sp0 => String.eqb (space_key sp0) k) kept)
      as [found | ] eqn:Hfind.
    + unfold ret in Hrun. inversion Hrun; subst.
      apply find_some in Hfind. destruct Hfind as [Hin Hkey].
      apply String.eqb_eq in Hkey. split; [ exact Hkey | ].
      apply cacheSpaces_cachedNow. right. exists sp. split; assumption.
    + unfold nextCursor in Hrun. cbn [links_next] in Hrun.
      destruct (Js.truthy_ostr (links_next data)).
      * destruct (url_cursor E (ostr (links_next data))) as [c | ];
          [ | discriminate ].
        unfold ret in Hrun.
        destruct (Js.truthy_ostr (if Js.truthy_ostr c then c else None));
          [ | discriminate ].
        eapply IH; eassumption.
      * unfold ret in Hrun. discriminate.
Qed.


Lemma getSpaceByKey_hit (fuel : nat) (k : string) (s : St E)
      (expiry : Z) (cached : ConfluenceSpace) :
  allowed config k = true ->
  Js.map_get k (spaceCacheExpiry s) = Some expiry ->
  Js.map_get k (spaceCache s) = Some cached ->
  now E (world s) < expiry ->
  getSpaceByKey E config fuel k s = (Ok cached, s).
Proof.
  intros Hk He Hc Hnow. unfold getSpaceByKey, bind, isSpaceCacheValid.
  rewrite Hk. cbn [negb]. cbv beta iota. rewrite He.
  apply Z.ltb_lt in Hnow. rewrite Hnow, Hc. reflexivity.
Qed.



(** *** The cache invariant *)

Lemma preserves_ret {A} (a : A) : preserves E config (ret E a).
Proof. intros s Hs. exact Hs. Qed.

Lemma preserves_throw {A} (e : Exn) : preserves E config (@throw E A e).
Proof. intros s Hs. exact Hs. Qed.

Lemma preserves_out_of_fuel {A} : preserves E config (@out_of_fuel E A).
Proof. intros s Hs. exact Hs. Qed.

Lemma preserves_bind {A B} (c : M E A) (k : A -> M E B) :
  preserves E config c -> (forall a, preserves E config (k a)) -> preserves E config (bind E c k).
Proof.
  intros Hc Hk s Hs. unfold bind. specialize (Hc s Hs).
  destruct (c s) as [[a | e | ] s1]; simpl in *; try assumption.
  apply Hk; assumption.
Qed.

Lemma preserves_axios_get {A}
      (send : Request -> World E -> Reply A * World E) (r : Request) :
  preserves E config (axios_get E send r).
Proof.
  intros s Hs. destruct (axios_get_run send r s) as [s' [Hrun [_ [Hc _]]]].
  rewrite Hrun. simpl. eapply cacheAllowed_same; [ apply Hc | exact Hs ].
Qed.

Lemma preserves_client_send {A}
      (send : Request -> World E -> Reply A * World E) (r : Request) :
  preserves E config (client_send E config send r).
Proof.
  intros s Hs. destruct (client_send_run send r s) as [s' [Hrun [_ [Hc _]]]].
  rewrite Hrun. simpl. eapply cacheAllowed_same; [ apply Hc | exact Hs ].
Qed.

Lemma preserves_cacheSpace (sp : ConfluenceSpace) :
  allowed config (space_key sp) = true -> preserves E config (cacheSpace E sp).
Proof. intros Hsp s Hs. simpl. apply cacheSpace_st_allowed; assumption. Qed.

Lemma preserves_cacheSpaces (spaces : list ConfluenceSpace) :
  Forall (fun sp => allowed config (space_key sp) = true) spaces ->
  preserves E config (cacheSpaces E spaces).
Proof.
  intros Hall s Hs. rewrite cacheSpaces_run. simpl.
  apply cacheSpaces_allowed; assumption.
Qed.

Lemma preserves_checkPageSpace (what : string) (page : ConfluencePage) :
  preserves E config (checkPageSpace E config what page).
Proof.
  unfold checkPageSpace.
  destruct (negb (Js.truthy_ostr (page_space page)));
    [ apply preserves_throw | ].
  destruct (negb (allowed config (ostr (page_space page))));
    [ apply preserves_throw | apply preserves_ret ].
Qed.

Lemma preserves_enrichAll (format : string) (pages : list ConfluencePage) :
  preserves E config (enrichAll E config format pages).
Proof.
  intros s Hs.
  destruct (enrichAll_run format pages s) as [p [s' [Hrun [_ [_ [_ [Hc _]]]]]]].
  rewrite Hrun. simpl. eapply cacheAllowed_same; [ apply Hc | exact Hs ].
Qed.

Create HintDb pres.
#[local] Hint Resolve preserves_ret preserves_throw preserves_out_of_fuel
  preserves_axios_get preserves_client_send preserves_checkPageSpace
  preserves_enrichAll filter_allowed : pres.

(** Splits a computation along its binds and its tests. *)
Ltac pres :=
  repeat first
    [ apply preserves_bind; [ | intros ? ]
    | match goal with
      | |- preserves E config (if ?b then _ else _) => destruct b
      | |- preserves E config (match ?x with _ => _ end) => destruct x
      end
    | solve [ auto with pres ] ].

Lemma preserves_getPage (pageId : string) (bodyFormat : option string) :
  preserves E config (getPage E config pageId bodyFormat).
Proof. unfold getPage. pres. Qed.

Lemma preserves_listSpaces (limit : Z) (cursor : option string) :
  preserves E config (listSpaces E config limit cursor).
Proof.
  unfold listSpaces. pres. apply preserves_cacheSpaces. auto with pres.
Qed.

Lemma preserves_findSpace (fuel : nat) (k : string) :
  forall cursor, preserves E config (findSpace E config fuel k cursor).
Proof.
  induction fuel as [ | fuel IH ]; intros cursor.
  - apply preserves_out_of_fuel.
  - rewrite findSpace_S. apply preserves_bind;
      [ apply preserves_listSpaces | intros spaces ].
    destruct (Js.find _ _); [ apply preserves_ret | ].
    apply preserves_bind; [ unfold nextCursor; pres | intros c ].
    destruct (Js.truthy_ostr c); [ apply IH | apply preserves_throw ].
Qed.

Lemma preserves_getSpaceByKey (fuel : nat) (k : string) :
  preserves E config (getSpaceByKey E config fuel k).
Proof.
  unfold getSpaceByKey.
  destruct (negb (allowed config k)); [ apply preserves_throw | ].
  intros s Hs. unfold bind, isSpaceCacheValid. cbv beta iota.
  destruct (Js.map_get k (spaceCacheExpiry s)) as [e | ];
    [ destruct (now E (world s) <? e);
      [ destruct (Js.map_get k (spaceCache s)); [ exact Hs | ] | ] | ];
    apply preserves_findSpace; exact Hs.
Qed.

Lemma preserves_getSpaceById (spaceId : string) :
  preserves E config (getSpaceById E config spaceId).
Proof.
  intros s Hs. unfold getSpaceById.
  destruct (cachedById E spaceId s); [ exact Hs | ].
  revert s Hs. apply preserves_bind; [ auto with pres | intros data ].
  destruct (negb (allowed config (space_key data))) eqn:Hd;
    [ apply preserves_throw | ].
  apply preserves_bind; [ | intros; apply preserves_ret ].
  apply preserves_cacheSpace. apply negb_false_iff. exact Hd.
Qed.

Lemma preserves_enrichListing (bodyFormat : option string)
      (data : PaginatedResult ConfluencePage) :
  preserves E config (enrichListing E config bodyFormat data).
Proof. unfold enrichListing. pres. Qed.

#[local] Hint Resolve preserves_getPage preserves_listSpaces
  preserves_getSpaceByKey preserves_getSpaceById preserves_enrichListing
  : pres.

Lemma exec_preserves (fuel : nat) (i : Invocation) (s : St E) :
  cacheAllowed E config s -> cacheAllowed E config (exec E config fuel i s).
Proof.
  revert s.
  destruct i; simpl;
    match goal with
    | |- forall s, _ -> cacheAllowed _ _ (snd (?c s)) =>
        change (preserves E config c)
    end.
  - unfold searchContent. pres.
  - auto with pres.
  - unfold createPage. pres.
  - unfold updatePage. pres.
  - unfold deletePage. pres.
  - auto with pres.
  - auto with pres.
  - auto with pres.
  - unfold getSpaceContent. pres.
  - unfold movePage. pres.
  - unfold getPageChildren. pres.
Qed.

Lemma reachable_cacheAllowed (s : St E) :
  reachable E config s -> cacheAllowed E config s.
Proof.
  induction 1 as [ w | fuel i s _ IH | w s _ IH ].
  - intros k sp [].
  - apply exec_preserves; assumption.
  - exact IH.
Qed.

Lemma cachedById_In (spaceId : string) (s : St E) (sp : ConfluenceSpace) :
  cachedById E spaceId s = Some sp ->
  exists k, In (k, sp) (spaceCache s).
Proof.
  unfold cachedById. intros H.
  destruct (Js.find _ (spaceCache s)) as [[k sp0] | ] eqn:Hfind;
    [ | discriminate ].
  simpl in H. inversion H; subst. exists k.
  apply find_some in Hfind. tauto.
Qed.

(** C8. In every state the client can reach, each entry of the space cache
    is filed under the key of the space it holds and that key is in the
    allowlist.  So the space [getSpaceById] finds in the cache, and every
    space that [getSpaceById] or [getSpaceByKey] returns, from the cache or
    from the remote system, has an allowed key. *)
Theorem space_cache_holds_allowed_spaces_only :
  forall (s : St E),
    reachable E config s ->
    (forall k sp, In (k, sp) (spaceCache s) ->
                  space_key sp = k /\ In k (allowedSpaces config)) /\
    (forall spaceId sp,
        cachedById E spaceId s = Some sp ->
        In (space_key sp) (allowedSpaces config)) /\
    (forall spaceId sp s',
        getSpaceById E config spaceId s = (Ok sp, s') ->
        In (space_key sp) (allowedSpaces config)) /\
    (forall fuel k sp s',
        getSpaceByKey E config fuel k s = (Ok sp, s') ->
        In (space_key sp) (allowedSpaces config)).
Proof.
  intros s Hreach. pose proof (reachable_cacheAllowed s Hreach) as Hinv.
  assert (Hcached : forall spaceId sp,
             cachedById E spaceId s = Some sp ->
             In (space_key sp) (allowedSpaces config)).
  { intros spaceId sp H. apply cachedById_In in H. destruct H as [k Hin].
    destruct (Hinv k sp Hin) as [Hkey Hk]. rewrite Hkey.
    apply validateSpaceAccess_In. exact Hk. }
  split; [ | split; [ exact Hcached | split ] ].
  - intros k sp Hin. destruct (Hinv k sp Hin) as [Hkey Hk].
    split; [ exact Hkey | apply validateSpaceAccess_In; exact Hk ].
  - intros spaceId sp s' Hrun. unfold getSpaceById in Hrun.
    destruct (cachedById E spaceId s) as [c | ] eqn:Hc.
    + inversion Hrun; subst. eapply Hcached; eassumption.
    + unfold bind in Hrun.
      destruct (client_send E config (http_space E) (GetSpace spaceId) s)
        as [[data | e | ] s1]; try discriminate.
      destruct (negb (allowed config (space_key data))) eqn:Hd;
        [ discriminate | ].
      unfold cacheSpace, ret in Hrun. inversion Hrun; subst.
      apply validateSpaceAccess_In. apply negb_false_iff. exact Hd.
  - intros fuel k sp s' Hrun. unfold getSpaceByKey in Hrun.
    destruct (negb (allowed config k)) eqn:Hk; [ discriminate | ].
    apply negb_false_iff in Hk.
    unfold bind, isSpaceCacheValid in Hrun. cbv beta iota in Hrun.
    assert (Hlookup : findSpace E config fuel k None s = (Ok sp, s') ->
                      In (space_key sp) (allowedSpaces config)).
    { intros Hfind. apply findSpace_found in Hfind.
      destruct Hfind as [Hkey _]. rewrite Hkey.
      apply validateSpaceAccess_In. exact Hk. }
    destruct (Js.map_get k (spaceCacheExpiry s)) as [e | ];
      [ | apply Hlookup; exact Hrun ].
    destruct (now E (world s) <? e); [ | apply Hlookup; exact Hrun ].
    destruct (Js.map_get k (spaceCache s)) as [c | ] eqn:Hc;
      [ | apply Hlookup; exact Hrun ].
    inversion Hrun; subst. apply map_get_In in Hc.
    destruct (Hinv k sp Hc) as [Hkey _]. rewrite Hkey.
    apply validateSpaceAccess_In. exact Hk.
Qed.

End WithEnv.

(* ===================================================================== *)
(** ** The claims at work on the small remote system                      *)
(* ===================================================================== *)

Lemma listSpaces_returns_allowed_spaces_only_witness :
  exists r s',
    listSpaces Demo.env Demo.config 50 None Demo.start = (Ok r, s') /\
    results r = [Demo.DEV] /\ size r = 1.
Proof.
  destruct (listSpaces_returns_allowed_spaces_only
              Demo.env Demo.config 50 None Demo.start
              {| results := [Demo.HR; Demo.DEV]; size := 2;
                 links_next := None; other := JObj [] |} eq_refl)
    as [r [s' [Hrun [Hres [_ Hsize]]]]].
  exists r, s'. split; [ exact Hrun | ].
  split; [ exact Hres | rewrite Hsize, Hres; reflexivity ].
Defined.

Lemma search_without_query_or_title_is_rejected_witness :
  exists s',
    Dispatcher.handleRequest Demo.env Demo.config 5
      (Dispatcher.with_arguments
         (Dispatcher.search_confluence None (Some EmptyString) (Some "DEV")
                                       None None None))
      Demo.start
    = (Throw (McpError InternalError
                ("Error executing search_confluence: At least one of "
                   ++ quoted "query" ++ " or " ++ quoted "title"
                   ++ " must be provided")), s') /\
    calls s' = [].
Proof.
  destruct (search_without_query_or_title_is_rejected
              Demo.env Demo.config 5 Demo.start) as [Hargs _].
  destruct (Hargs None (Some EmptyString) (Some "DEV") None None None
                  eq_refl eq_refl)
    as [s' [Hrun [Hcalls _]]].
  exists s'. split; [ exact Hrun | exact Hcalls ].
Defined.

(** C7, as first stated, fails for a request without an arguments object:
    it gives neither a query nor a title, and what the dispatcher answers
    is not the validation error but the error of destructuring the missing
    arguments.  No request is sent in this case either. *)
Lemma search_without_arguments_fails_in_destructuring :
  exists message s',
    Dispatcher.handleRequest Demo.env Demo.config 5
      (Dispatcher.without_arguments "search_confluence") Demo.start
    = (Throw (McpError InternalError message), s') /\
    message = "Error executing search_confluence: Cannot destructure property 'query' of 'args' as it is undefined." /\
    message <> "Error executing search_confluence: At least one of "
                 ++ quoted "query" ++ " or " ++ quoted "title"
                 ++ " must be provided" /\
    calls s' = [].
Proof.
  eexists. eexists. split; [ reflexivity | ].
  split; [ reflexivity | ]. split; [ | reflexivity ].
  intros H. apply String.eqb_eq in H. vm_compute in H. discriminate H.
Qed.



Lemma version_conflict_is_surfaced_unchanged_witness :
  exists s',
    updatePage Demo.env Demo.config "p1" "Notes" "<p>hi</p>" 3 Demo.start
    = (Throw (AxiosFailure Demo.conflict), s') /\
    length (calls s') = 2%nat.
Proof.
  destruct (version_conflict_is_surfaced_unchanged
              Demo.env Demo.config "p1"
              (Demo.mkPage "p1" "DEV"
                 (Some (JObj [("storage", JStr "<p>hi</p>")])))
              Demo.start 1 Demo.conflict eq_refl eq_refl eq_refl)
    as [Hupdate _].
  destruct (Hupdate "Notes" "<p>hi</p>" 3 5%nat eq_refl)
    as [s' [Hrun [Hcalls _]]].
  exists s'. split; [ exact Hrun | rewrite Hcalls; reflexivity ].
Defined.

(** C6, as first stated, fails when the debug flag is off: the body of
    [c2] cannot be fetched, the listing is returned all the same, and
    nothing is written about the failure, on the console or in the audit
    log. *)
Lemma failed_body_fetch_is_silent_without_debug :
  debug Demo.config = false /\
  fst (http_page Demo.env (GetContent "c2" "body.storage,version,space") 2)
  = inl Demo.notFound /\
  exists r s',
    getSpaceContent Demo.env Demo.config "DEV" 25 0 (Some "storage") Demo.start
    = (Ok r, s') /\
    map page_id (results r) = ["c1"; "c2"] /\
    map page_body (results r)
    = [Some (JObj [("storage", JStr "<p>hi</p>")]); None] /\
    calls s' = [GetPages "DEV" 25 0;
                GetContent "c1" "body.storage,version,space";
                GetContent "c2" "body.storage,version,space"] /\
    console s' = [] /\
    audit s' = [AuditRequest (GetPages "DEV" 25 0);
                AuditResponse (GetPages "DEV" 25 0)].
Proof.
  split; [ reflexivity | ]. split; [ reflexivity | ].
  eexists. eexists. split; [ reflexivity | ].
  repeat split.
Qed.

Lemma body_fetch_failure_is_not_fatal_witness :
  exists r s',
    getSpaceContent Demo.env Demo.debugConfig "DEV" 25 0 (Some "storage")
                    Demo.start
    = (Ok r, s') /\
    nth_error (results r) 1 = Some (Demo.mkPage "c2" "DEV" None) /\
    console s' = [ConsoleLog "Confluence API Request:";
                  ConsoleLog "Confluence API Response:";
                  ConsoleWarn "Failed to retrieve body content for page c2:"].
Proof.
  destruct (body_fetch_failure_is_not_fatal
              Demo.env Demo.debugConfig (Some "storage") eq_refl)
    as [Hcontent _].
  destruct (Hcontent "DEV" 25 0 Demo.start
                     {| results := [Demo.mkPage "c1" "DEV" None;
                                    Demo.mkPage "c2" "DEV" None];
                        size := 2; links_next := None; other := JObj [] |}
                     1 eq_refl eq_refl)
    as [r [s' [Hrun [_ [Hnth [Hcons _]]]]]].
  exists r, s'. split; [ exact Hrun | ]. split.
  - apply (Hnth 1%nat (Demo.mkPage "c2" "DEV" None) Demo.notFound);
      reflexivity.
  - exact Hcons.
Defined.



Lemma space_cache_holds_allowed_spaces_only_witness :
  reachable Demo.env Demo.config
            (exec Demo.env Demo.config 5 (InvListSpaces 50 None) Demo.start) /\
  In ("DEV", Demo.DEV)
     (spaceCache (exec Demo.env Demo.config 5 (InvListSpaces 50 None)
                       Demo.start)) /\
  In "DEV" (allowedSpaces Demo.config).
Proof.
  assert (Hreach : reachable Demo.env Demo.config
                     (exec Demo.env Demo.config 5 (InvListSpaces 50 None)
                           Demo.start))
    by (apply reach_invoke, reach_initial).
  assert (Hin : In ("DEV", Demo.DEV)
                   (spaceCache (exec Demo.env Demo.config 5
                                     (InvListSpaces 50 None) Demo.start)))
    by (left; reflexivity).
  destruct (space_cache_holds_allowed_spaces_only
              Demo.env Demo.config _ Hreach) as [Hinv _].
  split; [ exact Hreach | ]. split; [ exact Hin | ].
  apply (Hinv "DEV" Demo.DEV Hin).
Defined.

End ClientProofs.

(* end *)

(* ===================================================================== *)
(** ** Further properties: the configuration loader                       *)
(* ===================================================================== *)

Module ConfigFacts.
Import Config Spec.

Lemma split_comma_not_nil (s : string) : split_comma s <> [].
Proof.
  destruct s as [ | c s ]; simpl.
  - discriminate.
  - destruct (Ascii.eqb c ","%char); [ discriminate | ].
    destruct (split_comma s); discriminate.
Qed.

Lemma split_comma_single (p : string) :
  no_comma p = true -> split_comma p = [p].
Proof.
  induction p as [ | c p IH ]; simpl; intros Hp.
  - reflexivity.
  - apply andb_true_iff in Hp. destruct Hp as [Hc Hp].
    apply negb_true_iff in Hc. rewrite Hc, (IH Hp). reflexivity.
Qed.

Lemma split_comma_segment (p rest : string) :
  no_comma p = true ->
  split_comma (p ++ String ","%char rest) = p :: split_comma rest.
Proof.
  induction p as [ | c p IH ]; simpl; intros Hp.
  - reflexivity.
  - apply andb_true_iff in Hp. destruct Hp as [Hc Hp].
    apply negb_true_iff in Hc. rewrite Hc, (IH Hp). reflexivity.
Qed.

Lemma split_comma_join (segments : list string) :
  segments <> [] ->
  Forall (fun p => no_comma p = true) segments ->
  split_comma (Js.join "," segments) = segments.
Proof.
  induction segments as [ | p rest IH ]; intros Hne Hall; [ congruence | ].
  inversion Hall as [ | ? ? Hp Hrest ]; subst.
  destruct rest as [ | p' rest' ].
  - simpl. apply split_comma_single; assumption.
  - change (Js.join "," (p :: p' :: rest'))
      with (p ++ String ","%char (Js.join "," (p' :: rest'))).
    rewrite split_comma_segment by assumption.
    rewrite IH; [ reflexivity | discriminate | assumption ].
Qed.

Lemma trimStart_head (s : string) :
  match trimStart s with
  | EmptyString => True
  | String c _ => is_space c = false
  end.
Proof.
  induction s as [ | c s IH ]; simpl; [ exact I | ].
  destruct (is_space c) eqn:Hc; [ exact IH | exact Hc ].
Qed.

Lemma trimEnd_head (c : ascii) (s : string) :
  is_space c = false -> exists t, trimEnd (String c s) = String c t.
Proof.
  intros Hc. simpl. destruct (trimEnd s).
  - rewrite Hc. eexists; reflexivity.
  - eexists; reflexivity.
Qed.

Lemma trimEnd_idempotent (s : string) : trimEnd (trimEnd s) = trimEnd s.
Proof.
  induction s as [ | c s IH ]; simpl; [ reflexivity | ].
  destruct (trimEnd s) as [ | c' t ] eqn:Ht.
  - destruct (is_space c) eqn:Hc; simpl; [ reflexivity | ].
    rewrite Hc. reflexivity.
  - simpl in IH |- *. rewrite IH. reflexivity.
Qed.

Lemma trim_idempotent (s : string) : trim (trim s) = trim s.
Proof.
  unfold trim. pose proof (trimStart_head s) as Hhead.
  destruct (trimStart s) as [ | c t ]; [ reflexivity | ].
  destruct (trimEnd_head c t Hhead) as [u Hu].
  rewrite Hu. cbn [trimStart]. rewrite Hhead, <- Hu.
  apply trimEnd_idempotent.
Qed.

Lemma truthy_ostr_negb (o : option string) :
  negb (Js.truthy_ostr o) = false -> exists s, o = Some s /\ s <> EmptyString.
Proof.
  destruct o as [ [ | c s ] | ]; simpl; try discriminate.
  intros _. eexists. split; [ reflexivity | discriminate ].
Qed.

(** X1. The allowlist is read off the comma-separated segments of
    ALLOWED_SPACES, each trimmed of surrounding white space: when the
    variable is the segments joined by commas and holds ASCII characters
    only, the configured list is the list of trimmed segments, in order;
    every configured key is trimmed; and a key is granted access exactly
    when it is the trimmed form of a segment. *)
Theorem getConfig_allowlist_is_trimmed_segments :
  forall (env : ProcessEnv) (segments : list string) (cfg : ConfluenceConfig),
    segments <> [] ->
    Forall (fun p => no_comma p = true) segments ->
    Forall (fun p => Js.ascii_only p = true) segments ->
    ALLOWED_SPACES env = Some (Js.join "," segments) ->
    getConfig env = inr cfg ->
    allowedSpaces cfg = map trim segments /\
    Forall (fun k => trim k = k) (allowedSpaces cfg) /\
    (forall k, validateSpaceAccess k (allowedSpaces cfg) = true <->
               exists p, In p segments /\ trim p = k).
Proof.
  intros env segments cfg Hne Hall _ Henv Hcfg.
  unfold getConfig in Hcfg.
  destruct (negb (Js.truthy_ostr (CONFLUENCE_BASE_URL env)));
    [ discriminate | ].
  destruct (negb (Js.truthy_ostr (CONFLUENCE_USERNAME env)));
    [ discriminate | ].
  destruct (negb (Js.truthy_ostr (CONFLUENCE_API_TOKEN env)));
    [ discriminate | ].
  destruct (negb (Js.truthy_ostr (ALLOWED_SPACES env)));
    [ discriminate | ].
  inversion Hcfg; subst cfg; clear Hcfg. cbn [allowedSpaces].
  rewrite Henv. cbn [value]. rewrite split_comma_join by assumption.
  split; [ reflexivity | ]. split.
  - apply Forall_forall. intros k Hin. apply in_map_iff in Hin.
    destruct Hin as [p [Hp _]]. subst k. apply trim_idempotent.
  - intros k. rewrite ClientProofs.validateSpaceAccess_In, in_map_iff.
    split; intros [p [H1 H2]]; exists p; tauto.
Qed.

Lemma getConfig_allowlist_is_trimmed_segments_witness :
  exists cfg,
    getConfig {| CONFLUENCE_BASE_URL := Some "https://example.atlassian.net/";
                 CONFLUENCE_USERNAME := Some "bot";
                 CONFLUENCE_API_TOKEN := Some "t0p";
                 ALLOWED_SPACES := Some "DEV, DOCS ,HR";
                 DEBUG := None |} = inr cfg /\
    allowedSpaces cfg = ["DEV"; "DOCS"; "HR"].
Proof.
  eexists. split; [ reflexivity | ].
  apply (getConfig_allowlist_is_trimmed_segments
           {| CONFLUENCE_BASE_URL := Some "https://example.atlassian.net/";
              CONFLUENCE_USERNAME := Some "bot";
              CONFLUENCE_API_TOKEN := Some "t0p";
              ALLOWED_SPACES := Some "DEV, DOCS ,HR";
              DEBUG := None |}
           ["DEV"; " DOCS "; "HR"]).
  - discriminate.
  - repeat constructor.
  - repeat constructor.
  - reflexivity.
  - reflexivity.
Defined.

Lemma stripTrailingSlash_slash (u : string) :
  stripTrailingSlash (u ++ "/") = u.
Proof.
  induction u as [ | c u IH ]; [ reflexivity | ].
  change (String c u ++ "/") with (String c (u ++ "/")).
  cbn [stripTrailingSlash]. rewrite IH.
  destruct u; reflexivity.
Qed.

Lemma stripTrailingSlash_none (u : string) :
  ends_with_slash u = false -> stripTrailingSlash u = u.
Proof.
  induction u as [ | c u IH ]; [ reflexivity | ].
  cbn [stripTrailingSlash ends_with_slash].
  destruct u as [ | c' u' ].
  - intros Hc. rewrite Hc. reflexivity.
  - intros Hu. rewrite (IH Hu). reflexivity.
Qed.

(** X2. A base URL given with one slash at its end and the same URL given
    without it load to the same [baseUrl]: exactly one trailing slash is
    dropped, and a URL that does not end in a slash is kept as it is. *)
Theorem getConfig_drops_one_trailing_slash :
  forall (env : ProcessEnv) (cfg : ConfluenceConfig) (url : string),
    getConfig env = inr cfg ->
    (CONFLUENCE_BASE_URL env = Some (url ++ "/") -> baseUrl cfg = url) /\
    (CONFLUENCE_BASE_URL env = Some url -> ends_with_slash url = false ->
     baseUrl cfg = url).
Proof.
  intros env cfg url Hcfg. unfold getConfig in Hcfg.
  destruct (negb (Js.truthy_ostr (CONFLUENCE_BASE_URL env)));
    [ discriminate | ].
  destruct (negb (Js.truthy_ostr (CONFLUENCE_USERNAME env)));
    [ discriminate | ].
  destruct (negb (Js.truthy_ostr (CONFLUENCE_API_TOKEN env)));
    [ discriminate | ].
  destruct (negb (Js.truthy_ostr (ALLOWED_SPACES env)));
    [ discriminate | ].
  inversion Hcfg; subst cfg; clear Hcfg. cbn [baseUrl]. split.
  - intros Hurl. rewrite Hurl. apply stripTrailingSlash_slash.
  - intros Hurl Hend. rewrite Hurl. apply stripTrailingSlash_none; assumption.
Qed.

Lemma getConfig_drops_one_trailing_slash_witness :
  exists cfg,
    getConfig {| CONFLUENCE_BASE_URL := Some "https://example.atlassian.net/";
                 CONFLUENCE_USERNAME := Some "bot";
                 CONFLUENCE_API_TOKEN := Some "t0p";
                 ALLOWED_SPACES := Some "DEV";
                 DEBUG := Some "true" |} = inr cfg /\
    baseUrl cfg = "https://example.atlassian.net".
Proof.
  eexists. split; [ reflexivity | ].
  exact (proj1 (getConfig_drops_one_trailing_slash
                  {| CONFLUENCE_BASE_URL :=
                       Some "https://example.atlassian.net/";
                     CONFLUENCE_USERNAME := Some "bot";
                     CONFLUENCE_API_TOKEN := Some "t0p";
                     ALLOWED_SPACES := Some "DEV";
                     DEBUG := Some "true" |} _
                  "https://example.atlassian.net" eq_refl) eq_refl).
Defined.

End ConfigFacts.

(* ===================================================================== *)
(** ** Further properties: the audit logger                               *)
(* ===================================================================== *)

Module LoggerFacts.
Import Logger Spec LoggerProofs.

(** *** Redaction *)

Lemma typeof_object_removeSensitiveFields (d : json) :
  typeof_object (removeSensitiveFields d) = typeof_object d.
Proof. destruct d; reflexivity. Qed.

Lemma truthy_removeSensitiveFields (d : json) :
  truthy (removeSensitiveFields d) = truthy d.
Proof. destruct d; reflexivity. Qed.

Lemma removeSensitiveFields_idempotent (d : json) :
  removeSensitiveFields (removeSensitiveFields d) = removeSensitiveFields d.
Proof.
  induction d as [ | b | n | s | items IH | fields IH ] using json_nested_ind;
    simpl; try reflexivity.
  - f_equal. rewrite map_map. apply map_ext_in. intros x Hin.
    rewrite Forall_forall in IH. specialize (IH x Hin).
    destruct (typeof_object x) eqn:Hx.
    + rewrite typeof_object_removeSensitiveFields, Hx. exact IH.
    + rewrite Hx. reflexivity.
  - f_equal. rewrite map_map. apply map_ext_in. intros [k x] Hin.
    rewrite Forall_forall in IH. specialize (IH (k, x) Hin). simpl in IH.
    cbn [fst snd]. destruct (isSensitive k) eqn:Hk; cbn [fst snd].
    + rewrite Hk. reflexivity.
    + destruct (typeof_object x) eqn:Hx; cbn [fst snd]; rewrite Hk.
      * rewrite typeof_object_removeSensitiveFields, Hx, IH. reflexivity.
      * rewrite Hx. reflexivity.
Qed.

(** X3. Sanitizing is idempotent: a payload that has been sanitized once
    is left as it is by a second pass, whatever the payload. *)
Theorem sanitizeData_idempotent :
  forall (data : json), sanitizeData (sanitizeData data) = sanitizeData data.
Proof.
  intros data. unfold sanitizeData.
  destruct (truthy data) eqn:Ht; simpl.
  - rewrite truthy_removeSensitiveFields, Ht. simpl.
    apply removeSensitiveFields_idempotent.
  - rewrite Ht. reflexivity.
Qed.

Lemma removeSensitiveFields_clean (d : json) :
  clean d = true -> removeSensitiveFields d = d.
Proof.
  induction d as [ | b | n | s | items IH | fields IH ] using json_nested_ind;
    simpl; intros Hc; try reflexivity.
  - f_equal. rewrite forallb_forall in Hc. rewrite Forall_forall in IH.
    rewrite <- (map_id items) at 2. apply map_ext_in. intros x Hin.
    destruct (typeof_object x); [ apply IH; auto | reflexivity ].
  - f_equal. rewrite forallb_forall in Hc. rewrite Forall_forall in IH.
    rewrite <- (map_id fields) at 2. apply map_ext_in. intros [k x] Hin.
    specialize (Hc (k, x) Hin). specialize (IH (k, x) Hin). simpl in *.
    apply andb_true_iff in Hc. destruct Hc as [Hk Hx].
    apply negb_true_iff in Hk. rewrite Hk.
    destruct (typeof_object x); [ rewrite (IH Hx) | ]; reflexivity.
Qed.

(** X4. A payload whose field names, at every depth, hold ASCII characters
    only and none of which is sensitive is logged exactly as it is:
    sanitizing changes nothing but the values of fields with sensitive
    names. *)
Theorem sanitizeData_keeps_clean_payload :
  forall (data : json),
    ascii_names data = true -> clean data = true -> sanitizeData data = data.
Proof.
  intros data _ Hc. unfold sanitizeData.
  destruct (truthy data); simpl; [ | reflexivity ].
  apply removeSensitiveFields_clean; assumption.
Qed.

Lemma sanitizeData_keeps_clean_payload_witness :
  sanitizeData (JObj [("title", JStr "Notes");
                      ("body", JObj [("value", JStr "<p>hi</p>")]);
                      ("labels", JArr [JStr "a"; JNull])])
  = JObj [("title", JStr "Notes");
          ("body", JObj [("value", JStr "<p>hi</p>")]);
          ("labels", JArr [JStr "a"; JNull])].
Proof.
  apply sanitizeData_keeps_clean_payload; reflexivity.
Defined.

Lemma toLowerCase_app (a b : string) :
  Js.toLowerCase (a ++ b) = Js.toLowerCase a ++ Js.toLowerCase b.
Proof.
  induction a as [ | c a IH ]; simpl; [ reflexivity | ].
  rewrite IH. reflexivity.
Qed.

Lemma prefix_app (sub s post : string) :
  String.prefix sub s = true -> String.prefix sub (s ++ post) = true.
Proof.
  revert s. induction sub as [ | c sub IH ]; intros s H;
    [ destruct (s ++ post); reflexivity | ].
  destruct s as [ | c' s ]; [ discriminate | ].
  simpl in *. destruct (ascii_dec c c'); [ apply IH; assumption | discriminate ].
Qed.

Lemma includes_app_r (s post sub : string) :
  Js.includes s sub = true -> Js.includes (s ++ post) sub = true.
Proof.
  induction s as [ | c s IH ]; intros H.
  - simpl in H. rewrite orb_false_r in H.
    destruct sub; [ | discriminate ].
    destruct post; reflexivity.
  - change (Js.includes (String c (s ++ post)) sub = true).
    cbn [Js.includes] in H |- *.
    apply orb_true_iff in H. apply orb_true_iff. destruct H as [H | H].
    + left. apply (prefix_app sub (String c s) post H).
    + right. apply IH; assumption.
Qed.

Lemma includes_app_l (pre s sub : string) :
  Js.includes s sub = true -> Js.includes (pre ++ s) sub = true.
Proof.
  intros H. induction pre as [ | c pre IH ]; [ exact H | ].
  change (Js.includes (String c (pre ++ s)) sub = true).
  cbn [Js.includes]. rewrite IH. apply orb_true_r.
Qed.

Lemma lower_upper_ascii (c : ascii) :
  Js.lower_ascii (Js.upper_ascii c) = Js.lower_ascii c.
Proof.
  destruct c as [[] [] [] [] [] [] [] []]; reflexivity.
Qed.

Lemma lower_lower_ascii (c : ascii) :
  Js.lower_ascii (Js.lower_ascii c) = Js.lower_ascii c.
Proof.
  destruct c as [[] [] [] [] [] [] [] []]; reflexivity.
Qed.

Lemma toLowerCase_toUpperCase (s : string) :
  Js.toLowerCase (Js.toUpperCase s) = Js.toLowerCase s.
Proof.
  induction s as [ | c s IH ]; simpl; [ reflexivity | ].
  rewrite lower_upper_ascii, IH. reflexivity.
Qed.

Lemma toLowerCase_toLowerCase (s : string) :
  Js.toLowerCase (Js.toLowerCase s) = Js.toLowerCase s.
Proof.
  induction s as [ | c s IH ]; simpl; [ reflexivity | ].
  rewrite lower_lower_ascii, IH. reflexivity.
Qed.

(** X5. Among the names that hold ASCII characters only, a sensitive name
    stays sensitive whatever is written before or after it and whatever
    the case of its letters: every field name that contains a sensitive
    name is redacted too, and neither upper-casing nor lower-casing a name
    changes whether it is redacted. *)
Theorem isSensitive_extends_to_longer_names :
  forall (name : string),
    Js.ascii_only name = true ->
    (forall before after,
        Js.ascii_only before = true ->
        Js.ascii_only after = true ->
        isSensitive name = true ->
        isSensitive (before ++ name ++ after) = true) /\
    isSensitive (Js.toUpperCase name) = isSensitive name /\
    isSensitive (Js.toLowerCase name) = isSensitive name.
Proof.
  intros name _. split; [ | split ].
  - intros before after _ _ H. unfold isSensitive in *.
    apply existsb_exists in H. destruct H as [sub [Hin Hsub]].
    apply existsb_exists. exists sub. split; [ exact Hin | ].
    rewrite !toLowerCase_app.
    apply includes_app_l, includes_app_r. exact Hsub.
  - unfold isSensitive. rewrite toLowerCase_toUpperCase. reflexivity.
  - unfold isSensitive. rewrite toLowerCase_toLowerCase. reflexivity.
Qed.

Lemma isSensitive_extends_to_longer_names_witness :
  isSensitive "primaryAuthorId" = true.
Proof.
  destruct (isSensitive_extends_to_longer_names "Auth" eq_refl) as [H _].
  apply (H "primary" "orId"); reflexivity.
Defined.

(** *** The log file *)

Lemma length_append (a b : string) :
  String.length (a ++ b) = (String.length a + String.length b)%nat.
Proof. induction a as [ | c a IH ]; simpl; [ reflexivity | rewrite IH; reflexivity ]. Qed.

Lemma split_nl_app_line (l t : string) :
  no_nl l = true -> Js.split_nl (l ++ String Js.nl t) = l :: Js.split_nl t.
Proof.
  induction l as [ | c l IH ]; simpl; intros Hl.
  - reflexivity.
  - apply andb_true_iff in Hl. destruct Hl as [Hc Hl].
    apply negb_true_iff in Hc. rewrite Hc, (IH Hl). reflexivity.
Qed.

Lemma split_nl_logOf (entries : list string) :
  Forall (fun e => no_nl e = true) entries ->
  Js.split_nl (logOf entries) = (entries ++ [EmptyString])%list.
Proof.
  induction 1 as [ | e rest He _ IH ]; [ reflexivity | ].
  cbn [logOf]. rewrite split_nl_app_line by assumption.
  rewrite IH. reflexivity.
Qed.

Lemma join_nl_logOf (entries : list string) :
  Js.join_nl (entries ++ [EmptyString])%list = logOf entries.
Proof.
  induction entries as [ | e rest IH ]; [ reflexivity | ].
  cbn [logOf]. rewrite <- IH. simpl.
  destruct (rest ++ [EmptyString])%list eqn:Hr; [ | reflexivity ].
  destruct rest; discriminate.
Qed.

Lemma logOf_app (a b : list string) :
  logOf (a ++ b) = logOf a ++ logOf b.
Proof.
  induction a as [ | e a IH ]; [ reflexivity | ].
  simpl. rewrite IH.
  induction e as [ | c e IHe ]; simpl; [ reflexivity | ].
  rewrite IHe. reflexivity.
Qed.

Lemma half_of_succ (m : nat) :
  (1 <= m)%nat ->
  (S m - Nat.div2 (S m) = m - (m - 1) / 2)%nat /\
  (m - (m - 1) / 2 <= m)%nat /\
  (m - (m - (m - 1) / 2) = (m - 1) / 2)%nat.
Proof.
  intros Hm. rewrite Nat.div2_div.
  assert (H1 : (S m / 2 = (m - 1) / 2 + 1)%nat).
  { replace (S m) with ((m - 1) + 1 * 2)%nat by lia.
    rewrite Nat.div_add by lia. reflexivity. }
  assert (H2 : ((m - 1) / 2 <= m - 1)%nat)
    by (apply Nat.Div0.div_le_upper_bound; lia).
  lia.
Qed.

(** Trimming a file of complete entries: the last [(m - 1) / 2] of its
    [m] entries stay. *)
Lemma checkAndTrimLogFile_logOf (maxSize : Z) (entries : list string) :
  Forall (fun e => no_nl e = true) entries ->
  (Z.of_nat (String.length (logOf entries)) >? maxSize) = true ->
  checkAndTrimLogFile maxSize (Some (logOf entries))
  = Some (logOf (skipn (length entries - (length entries - 1) / 2) entries)).
Proof.
  intros Hall Hsize. unfold checkAndTrimLogFile. rewrite Hsize.
  rewrite split_nl_logOf by assumption. f_equal.
  destruct entries as [ | e rest ]; [ reflexivity | ].
  set (es := e :: rest) in *.
  assert (Hm : (1 <= length es)%nat) by (simpl; lia).
  destruct (half_of_succ (length es) Hm) as [Hskip [Hle _]].
  rewrite trimmedLines_large by (rewrite length_app; simpl; lia).
  rewrite length_app. cbn [length].
  replace (length es + 1)%nat with (S (length es)) by lia.
  rewrite Hskip, skipn_app.
  replace (length es - (length es - 1) / 2 - length es)%nat with 0%nat by lia.
  cbn [skipn]. apply join_nl_logOf.
Qed.

(** X6. On a log file made of complete entries, [writeLog] leaves a file
    made of complete entries again, the new entry last: below the size
    threshold all the old entries stay before it; above it, only the last
    [(m - 1) / 2] of the [m] old entries stay, so with one or two entries
    in it the old log is dropped whole.  A missing file is created with
    the new entry alone. *)
Theorem writeLog_keeps_recent_entries :
  forall (maxSize : Z) (line : string) (entries : list string),
    Forall (fun e => no_nl e = true) entries ->
    let m := length entries in
    let kept :=
      if Z.of_nat (String.length (logOf entries)) >? maxSize
      then skipn (m - (m - 1) / 2) entries
      else entries in
    writeLog maxSize line (Some (logOf entries))
    = Some (logOf (kept ++ [line])) /\
    (Z.of_nat (String.length (logOf entries)) > maxSize ->
     length kept = ((m - 1) / 2)%nat) /\
    writeLog maxSize line None = Some (logOf [line]).
Proof.
  intros maxSize line entries Hall m kept. split; [ | split ].
  - unfold writeLog. subst kept m.
    rewrite logOf_app. cbn [logOf].
    destruct (Z.of_nat (String.length (logOf entries)) >? maxSize) eqn:Hsize.
    + rewrite checkAndTrimLogFile_logOf by assumption. reflexivity.
    + unfold checkAndTrimLogFile. rewrite Hsize. reflexivity.
  - intros Hsize. subst kept m.
    replace (Z.of_nat (String.length (logOf entries)) >? maxSize) with true
      by (symmetry; apply Z.gtb_lt; lia).
    rewrite length_skipn.
    destruct entries as [ | e rest ]; [ reflexivity | ].
    apply half_of_succ. simpl. lia.
  - reflexivity.
Qed.


Lemma writeLog_keeps_recent_entries_witness :
  writeLog 8 "{c}" (Some (logOf ["{a1}"; "{a2}"; "{a3}"; "{b}"]))
  = Some (logOf ["{b}"; "{c}"]) /\
  writeLog 8 "{c}" (Some (logOf ["{a1}"; "{b}"])) = Some (logOf ["{c}"]).
Proof.
  split.
  - refine (proj1 (writeLog_keeps_recent_entries
                     8 "{c}" ["{a1}"; "{a2}"; "{a3}"; "{b}"] _)).
    repeat constructor.
  - refine (proj1 (writeLog_keeps_recent_entries
                     8 "{c}" ["{a1}"; "{b}"] _)).
    repeat constructor.
Defined.

Lemma join_nl_cons_length (d : string) (rest : list string) :
  rest <> [] ->
  String.length (Js.join_nl (d :: rest))
  = (String.length d + 1 + String.length (Js.join_nl rest))%nat.
Proof.
  intros Hne. destruct rest as [ | r rest ]; [ congruence | ].
  change (Js.join_nl (d :: r :: rest))
    with (d ++ String Js.nl (Js.join_nl (r :: rest))).
  rewrite length_append. simpl. lia.
Qed.

Lemma join_nl_suffix_length (dropped kept : list string) :
  kept <> [] ->
  (String.length (Js.join_nl kept) + length dropped
   <= String.length (Js.join_nl (dropped ++ kept)))%nat.
Proof.
  intros Hne. induction dropped as [ | d ds IH ]; [ simpl; lia | ].
  change ((d :: ds) ++ kept)%list with (d :: (ds ++ kept))%list.
  rewrite join_nl_cons_length.
  - simpl length. lia.
  - intros Hnil. apply app_eq_nil in Hnil. destruct Hnil; congruence.
Qed.

(** X7. Trimming never makes the log file longer and, when the file holds
    at least one line separator, makes it strictly shorter; a file that is
    one single line is written back as it is, however large. *)
Theorem checkAndTrimLogFile_shrinks_the_file :
  forall (maxSize : Z) (content : string),
    Z.of_nat (String.length content) > maxSize ->
    exists content',
      checkAndTrimLogFile maxSize (Some content) = Some content' /\
      (String.length content' <= String.length content)%nat /\
      ((2 <= length (Js.split_nl content))%nat ->
       (String.length content' < String.length content)%nat) /\
      (no_nl content = true -> content' = content).
Proof.
  intros maxSize content Hsize.
  exists (Js.join_nl (trimmedLines (Js.split_nl content))).
  split.
  { simpl. replace (Z.of_nat (String.length content) >? maxSize) with true
      by (symmetry; apply Z.gtb_lt; lia). reflexivity. }
  set (lines := Js.split_nl content).
  destruct (trimmedLines_suffix lines) as [dropped Hd].
  assert (Hne : trimmedLines lines <> [])
    by (apply trimmedLines_not_nil, split_nl_not_nil).
  pose proof (join_nl_suffix_length dropped (trimmedLines lines) Hne) as Hlen.
  rewrite <- Hd in Hlen. unfold lines in Hlen at 2.
  rewrite join_split_nl in Hlen.
  split; [ lia | ]. split.
  - intros Hn. fold lines in Hn.
    assert (Hk : (length (trimmedLines lines) < length lines)%nat).
    { rewrite trimmedLines_large by assumption. rewrite length_skipn.
      assert (Nat.div2 (length lines) < length lines)%nat
        by (apply Nat.lt_div2; lia).
      lia. }
    assert (Hdrop : (1 <= length dropped)%nat).
    { apply (f_equal (@length string)) in Hd. rewrite length_app in Hd. lia. }
    lia.
  - intros Hnl. unfold lines. rewrite (split_nl_single content Hnl).
    reflexivity.
Qed.

Lemma checkAndTrimLogFile_shrinks_the_file_witness :
  exists content',
    checkAndTrimLogFile 3 (Some (logOf ["aaaa"; "bb"; "c"])) = Some content' /\
    (String.length content' < 10)%nat.
Proof.
  destruct (checkAndTrimLogFile_shrinks_the_file 3 (logOf ["aaaa"; "bb"; "c"]))
    as [content' [Hrun [_ [Hlt _]]]].
  - vm_compute. reflexivity.
  - exists content'. split; [ exact Hrun | ].
    apply Hlt. vm_compute. lia.
Defined.

End LoggerFacts.

(* ===================================================================== *)
(** ** Further properties: the client and the dispatcher                  *)
(* ===================================================================== *)

Module ClientFacts.
Import Client Run Spec ClientProofs.

(** *** What a method can do to the state, by the requests it may send *)

Section Trace.
Context (E : Env) (config : ConfluenceConfig).

(** [R] relates a state to the states that may follow it; it is closed
    under the steps of the transport, of the cache and of the console, for
    the requests of the kinds [q] accepts. *)
Variable R : St E -> St E -> Prop.
Variable q : Kind -> bool.
Hypothesis R_refl : forall s, R s s.
Hypothesis R_trans : forall s1 s2 s3, R s1 s2 -> R s2 s3 -> R s1 s3.
Hypothesis R_axios :
  forall A (send : Request -> World E -> Reply A * World E) r s,
    q (kind r) = true -> via_client (kind r) = false ->
    R s (snd (axios_get E send r s)).
Hypothesis R_client :
  forall A (send : Request -> World E -> Reply A * World E) r s,
    q (kind r) = true -> via_client (kind r) = true ->
    R s (snd (client_send E config send r s)).
Hypothesis R_cache : forall sp s, R s (cacheSpace_st E sp s).
Hypothesis R_console : forall m s, R s (debug_console E config m s).

Lemma follows_ret {A} (a : A) : follows R (ret E a).
Proof. intros s. apply R_refl. Qed.

Lemma follows_throw {A} (e : Exn) : follows R (@throw E A e).
Proof. intros s. apply R_refl. Qed.

Lemma follows_out_of_fuel {A} : follows R (@out_of_fuel E A).
Proof. intros s. apply R_refl. Qed.

Lemma follows_bind {A B} (c : M E A) (k : A -> M E B) :
  follows R c -> (forall a, follows R (k a)) -> follows R (bind E c k).
Proof.
  intros Hc Hk s. unfold bind. specialize (Hc s).
  destruct (c s) as [[a | e | ] s1]; simpl in *; try assumption.
  eapply R_trans; [ exact Hc | apply Hk ].
Qed.

Lemma follows_axios_get {A}
      (send : Request -> World E -> Reply A * World E) (r : Request) :
  q (kind r) = true -> via_client (kind r) = false ->
  follows R (axios_get E send r).
Proof. intros Hq Hv s. apply R_axios; assumption. Qed.

Lemma follows_client_send {A}
      (send : Request -> World E -> Reply A * World E) (r : Request) :
  q (kind r) = true -> via_client (kind r) = true ->
  follows R (client_send E config send r).
Proof. intros Hq Hv s. apply R_client; assumption. Qed.

Lemma follows_cacheSpaces (spaces : list ConfluenceSpace) :
  follows R (cacheSpaces E spaces).
Proof.
  induction spaces as [ | sp rest IH ]; intros s.
  - apply R_refl.
  - simpl. unfold bind, cacheSpace.
    eapply R_trans; [ apply R_cache | apply IH ].
Qed.

Lemma follows_checkPageSpace (what : string) (page : ConfluencePage) :
  follows R (checkPageSpace E config what page).
Proof.
  unfold checkPageSpace.
  destruct (negb (Js.truthy_ostr (page_space page)));
    [ apply follows_throw | ].
  destruct (negb (allowed config (ostr (page_space page))));
    [ apply follows_throw | apply follows_ret ].
Qed.

Lemma follows_nextCursor (spaces : PaginatedResult ConfluenceSpace) :
  follows R (nextCursor E spaces).
Proof.
  unfold nextCursor.
  destruct (Js.truthy_ostr (links_next spaces)); [ | apply follows_ret ].
  destruct (url_cursor E (ostr (links_next spaces)));
    [ apply follows_ret | apply follows_throw ].
Qed.

(** Splits a computation along its binds and its tests; the side
    conditions on the kind of a request are settled by computation. *)
Ltac flw :=
  repeat first
    [ apply follows_bind; [ | intros ? ]
    | apply follows_ret
    | apply follows_throw
    | apply follows_out_of_fuel
    | apply follows_cacheSpaces
    | apply follows_checkPageSpace
    | apply follows_nextCursor
    | apply follows_axios_get; [ assumption | reflexivity ]
    | apply follows_client_send; [ assumption | reflexivity ]
    | match goal with
      | |- follows _ (if ?b then _ else _) => destruct b
      | |- follows _ (match ?x with _ => _ end) => destruct x
      end ].

Lemma follows_getPage (pageId : string) (bodyFormat : option string) :
  q KContent = true -> follows R (getPage E config pageId bodyFormat).
Proof. intros Hq. unfold getPage. flw. Qed.

Lemma follows_listSpaces (limit : Z) (cursor : option string) :
  q KSpaces = true -> follows R (listSpaces E config limit cursor).
Proof. intros Hq. unfold listSpaces. flw. Qed.

Lemma follows_findSpace (fuel : nat) (k : string) :
  q KSpaces = true ->
  forall cursor, follows R (findSpace E config fuel k cursor).
Proof.
  intros Hq. induction fuel as [ | fuel IH ]; intros cursor.
  - apply follows_out_of_fuel.
  - rewrite findSpace_S. apply follows_bind;
      [ apply follows_listSpaces; assumption | intros spaces ].
    destruct (Js.find _ _); [ apply follows_ret | ].
    apply follows_bind; [ apply follows_nextCursor | intros c ].
    destruct (Js.truthy_ostr c); [ apply IH | apply follows_throw ].
Qed.

Lemma follows_getSpaceByKey (fuel : nat) (k : string) :
  q KSpaces = true -> follows R (getSpaceByKey E config fuel k).
Proof.
  intros Hq. unfold getSpaceByKey.
  destruct (negb (allowed config k)); [ apply follows_throw | ].
  intros s. unfold bind, isSpaceCacheValid. cbv beta iota.
  destruct (Js.map_get k (spaceCacheExpiry s)) as [e | ];
    [ destruct (now E (world s) <? e);
      [ destruct (Js.map_get k (spaceCache s)); [ apply R_refl | ] | ] | ];
    apply follows_findSpace; assumption.
Qed.

Lemma follows_getSpaceById (spaceId : string) :
  q KSpace = true -> follows R (getSpaceById E config spaceId).
Proof.
  intros Hq s. unfold getSpaceById.
  destruct (cachedById E spaceId s); [ apply R_refl | ].
  revert s. change (follows R
    (bind E (client_send E config (http_space E) (GetSpace spaceId))
          (fun data =>
             if negb (allowed config (space_key data))
             then throw E (Error ("Access denied to space: "
                                    ++ space_key data))
             else bind E (cacheSpace E data) (fun _ => ret E data)))).
  apply follows_bind; [ apply follows_client_send; [ assumption | reflexivity ]
                      | intros data ].
  destruct (negb (allowed config (space_key data)));
    [ apply follows_throw | ].
  intros s. unfold bind, cacheSpace, ret. simpl. apply R_cache.
Qed.

Lemma follows_enrichPage (format : string) (page : ConfluencePage) :
  q KContent = true -> follows R (enrichPage E config format page).
Proof.
  intros Hq s. unfold enrichPage.
  pose proof (R_axios _ (http_page E)
                (GetContent (page_id page) (format ++ ",version,space")) s
                Hq eq_refl) as Hstep.
  destruct (axios_get E (http_page E)
              (GetContent (page_id page) (format ++ ",version,space")) s)
    as [[v1 | e | ] s1]; simpl in Hstep |- *.
  - destruct (page_body v1) as [body | ]; [ destruct (truthy body) | ];
      exact Hstep.
  - eapply R_trans; [ exact Hstep | apply R_console ].
  - eapply R_trans; [ exact Hstep | apply R_console ].
Qed.

Lemma follows_enrichAll (format : string) (pages : list ConfluencePage) :
  q KContent = true -> follows R (enrichAll E config format pages).
Proof.
  intros Hq. induction pages as [ | page rest IH ]; simpl.
  - apply follows_ret.
  - apply follows_bind; [ apply follows_enrichPage; assumption | intros p ].
    apply follows_bind; [ exact IH | intros r; apply follows_ret ].
Qed.

Lemma follows_enrichListing (bodyFormat : option string)
      (data : PaginatedResult ConfluencePage) :
  q KContent = true -> follows R (enrichListing E config bodyFormat data).
Proof.
  intros Hq. unfold enrichListing.
  destruct (_ && _); [ | apply follows_ret ].
  apply follows_bind; [ apply follows_enrichAll; assumption | intros r ].
  apply follows_ret.
Qed.

Lemma follows_searchContent query spaceKey limit title start bodyFormat :
  q KSearch = true ->
  follows R (searchContent E config query spaceKey limit title start
                           bodyFormat).
Proof. intros Hq. unfold searchContent. flw. Qed.

Lemma follows_createPage fuel spaceKey title content_ parentId :
  q KSpaces = true -> q KPost = true ->
  follows R (createPage E config fuel spaceKey title content_ parentId).
Proof.
  intros Hs Hp. unfold createPage.
  destruct (negb (allowed config spaceKey)); [ apply follows_throw | ].
  apply follows_bind; [ apply follows_getSpaceByKey; assumption | intros sp ].
  flw.
Qed.

Lemma follows_updatePage pageId title content_ version :
  q KContent = true -> q KPutUpdate = true ->
  follows R (updatePage E config pageId title content_ version).
Proof.
  intros Hc Hp. unfold updatePage.
  apply follows_bind; [ apply follows_getPage; assumption | intros page ].
  flw.
Qed.

Lemma follows_deletePage pageId :
  q KContent = true -> q KDelete = true ->
  follows R (deletePage E config pageId).
Proof.
  intros Hc Hp. unfold deletePage.
  apply follows_bind; [ apply follows_getPage; assumption | intros page ].
  flw.
Qed.

Lemma follows_movePage pageId target parentId :
  q KContent = true -> q KPutMove = true ->
  follows R (movePage E config pageId target parentId).
Proof.
  intros Hc Hp. unfold movePage.
  apply follows_bind; [ apply follows_getPage; assumption | intros page ].
  flw.
Qed.

Lemma follows_getSpaceContent spaceKey limit start bodyFormat :
  q KPages = true -> q KContent = true ->
  follows R (getSpaceContent E config spaceKey limit start bodyFormat).
Proof.
  intros Hp Hc. unfold getSpaceContent.
  destruct (negb (allowed config spaceKey)); [ apply follows_throw | ].
  apply follows_bind; [ flw | intros data ].
  apply follows_enrichListing; assumption.
Qed.

Lemma follows_getPageChildren pageId limit start bodyFormat :
  q KContent = true -> q KChildren = true ->
  follows R (getPageChildren E config pageId limit start bodyFormat).
Proof.
  intros Hc Hp. unfold getPageChildren.
  apply follows_bind; [ apply follows_getPage; assumption | intros page ].
  apply follows_bind; [ apply follows_checkPageSpace | intros _ ].
  apply follows_bind; [ flw | intros data ].
  apply follows_enrichListing; assumption.
Qed.

(** Every public method, given that [q] accepts the kinds of its row in
    [kinds_of]. *)
Lemma exec_follows (fuel : nat) (i : Invocation) (s : St E) :
  (forall k, In k (kinds_of i) -> q k = true) ->
  R s (exec E config fuel i s).
Proof.
  intros Hq. revert s.
  destruct i; simpl;
    match goal with
    | |- forall s, R s (snd (?c s)) => change (follows R c)
    end.
  - apply follows_searchContent; apply Hq; simpl; auto.
  - apply follows_getPage; apply Hq; simpl; auto.
  - apply follows_createPage; apply Hq; simpl; auto.
  - apply follows_updatePage; apply Hq; simpl; auto.
  - apply follows_deletePage; apply Hq; simpl; auto.
  - apply follows_listSpaces; apply Hq; simpl; auto.
  - apply follows_getSpaceById; apply Hq; simpl; auto.
  - apply follows_getSpaceByKey; apply Hq; simpl; auto.
  - apply follows_getSpaceContent; apply Hq; simpl; auto.
  - apply follows_movePage; apply Hq; simpl; auto.
  - apply follows_getPageChildren; apply Hq; simpl; auto.
Qed.


End Trace.


(** *** The requests a method sends *)

Section WithEnv.
Context (E : Env) (config : ConfluenceConfig).

Lemma Kind_eqb_eq (a b : Kind) : Kind_eqb a b = true <-> a = b.
Proof. destruct a, b; simpl; split; intros H; congruence. Qed.

Lemma mutating_kind (r : Request) : mutating r = writes (kind r).
Proof. destruct r; reflexivity. Qed.

Lemma sent_only_refl (q : Kind -> bool) (s : St E) : sent_only q s s.
Proof. exists []. rewrite app_nil_r. split; reflexivity. Qed.

Lemma sent_only_trans (q : Kind -> bool) (s1 s2 s3 : St E) :
  sent_only q s1 s2 -> sent_only q s2 s3 -> sent_only q s1 s3.
Proof.
  intros [a [Ha Hqa]] [b [Hb Hqb]]. exists (a ++ b)%list. split.
  - rewrite Hb, Ha, app_assoc. reflexivity.
  - rewrite forallb_app, Hqa, Hqb. reflexivity.
Qed.

Lemma sent_only_same (q : Kind -> bool) (s s' : St E) :
  calls s' = calls s -> sent_only q s s'.
Proof.
  intros H. exists []. rewrite app_nil_r. split; [ exact H | reflexivity ].
Qed.

Lemma sent_only_axios (q : Kind -> bool) :
  forall A (send : Request -> World E -> Reply A * World E) r s,
    q (kind r) = true -> via_client (kind r) = false ->
    sent_only q s (snd (axios_get E send r s)).
Proof.
  intros A send r s Hq _.
  destruct (axios_get_run E send r s) as [s' [Hrun [_ [_ [Hcalls _]]]]].
  rewrite Hrun. exists [r]. split; [ exact Hcalls | ].
  simpl. rewrite Hq. reflexivity.
Qed.

Lemma sent_only_client (q : Kind -> bool) :
  forall A (send : Request -> World E -> Reply A * World E) r s,
    q (kind r) = true -> via_client (kind r) = true ->
    sent_only q s (snd (client_send E config send r s)).
Proof.
  intros A send r s Hq _.
  destruct (client_send_run E config send r s)
    as [s' [Hrun [_ [_ [Hcalls _]]]]].
  rewrite Hrun. exists [r]. split; [ exact Hcalls | ].
  simpl. rewrite Hq. reflexivity.
Qed.

Lemma sent_only_cache (q : Kind -> bool) :
  forall sp (s : St E), sent_only q s (cacheSpace_st E sp s).
Proof. intros sp s. apply sent_only_same. reflexivity. Qed.

Lemma sent_only_console (q : Kind -> bool) :
  forall m (s : St E), sent_only q s (debug_console E config m s).
Proof.
  intros m s. apply sent_only_same.
  apply (debug_console_frame E config m s).
Qed.

(** The requests of an invocation are of the kinds [q] accepts as soon as
    [q] accepts the kinds of its method. *)
Lemma exec_sent_only (q : Kind -> bool) (fuel : nat) (i : Invocation)
      (s : St E) :
  (forall k, In k (kinds_of i) -> q k = true) ->
  sent_only q s (exec E config fuel i s).
Proof.
  apply (exec_follows E config (sent_only q) q
           (sent_only_refl q) (sent_only_trans q) (sent_only_axios q)
           (sent_only_client q) (sent_only_cache q) (sent_only_console q)).
Qed.


Lemma accepted_kinds (kinds : list Kind) (sent : list Request) :
  forallb (fun r => existsb (Kind_eqb (kind r)) kinds) sent = true ->
  forall r, In r sent -> In (kind r) kinds.
Proof.
  intros H r Hin. rewrite forallb_forall in H. specialize (H r Hin).
  apply existsb_exists in H. destruct H as [k [Hk Heq]].
  apply Kind_eqb_eq in Heq. rewrite Heq. exact Hk.
Qed.

Lemma accepts_own_kinds (kinds : list Kind) :
  forall k, In k kinds -> existsb (Kind_eqb k) kinds = true.
Proof.
  intros k Hin. apply existsb_exists. exists k.
  split; [ exact Hin | apply Kind_eqb_eq; reflexivity ].
Qed.

(** X8. Whatever the remote system answers, a method only adds requests
    to those already sent, and only with its own HTTP methods: the reading
    methods send nothing but GETs, [createPage] GETs and a POST,
    [updatePage] and [movePage] GETs and a PUT, [deletePage] GETs and a
    DELETE. *)
Theorem methods_use_only_their_http_methods :
  forall (fuel : nat) (i : Invocation) (s : St E),
    exists sent,
      calls (exec E config fuel i s) = (calls s ++ sent)%list /\
      forall r, In r sent -> In (verb r) (verbs_of i).
Proof.
  intros fuel i s.
  destruct (exec_sent_only (fun k => existsb (Kind_eqb k) (kinds_of i))
                           fuel i s (accepts_own_kinds (kinds_of i)))
    as [sent [Hcalls Hkinds]].
  exists sent. split; [ exact Hcalls | ].
  pose proof (accepted_kinds (kinds_of i) sent Hkinds) as Hin.
  intros r Hr. specialize (Hin r Hr).
  destruct i; simpl in Hin;
    repeat (destruct Hin as [Hin | Hin];
            [ destruct r; try discriminate Hin; simpl; tauto | ]);
    destruct Hin.
Qed.


(** *** The audit log *)

Lemma Balanced_app (a b : list AuditEvent) :
  Balanced a -> Balanced b -> Balanced (a ++ b).
Proof.
  intros Ha Hb. induction Ha; simpl; [ exact Hb | | ];
    constructor; assumption.
Qed.

Lemma audited_app (a b : list AuditEvent) :
  audited (a ++ b) = (audited a ++ audited b)%list.
Proof.
  induction a as [ | [r | r | r e] a IH ]; simpl; rewrite ?IH; reflexivity.
Qed.

Lemma logs_client_requests_refl (s : St E) : logs_client_requests s s.
Proof.
  exists [], []. rewrite !app_nil_r.
  repeat split. constructor.
Qed.

Lemma logs_client_requests_trans (s1 s2 s3 : St E) :
  logs_client_requests s1 s2 -> logs_client_requests s2 s3 ->
  logs_client_requests s1 s3.
Proof.
  intros [a [ea [Ha [Hea [Hba Hfa]]]]] [b [eb [Hb [Heb [Hbb Hfb]]]]].
  exists (a ++ b)%list, (ea ++ eb)%list.
  split; [ rewrite Hb, Ha, app_assoc; reflexivity | ].
  split; [ rewrite Heb, Hea, app_assoc; reflexivity | ].
  split; [ apply Balanced_app; assumption | ].
  rewrite audited_app, filter_app, Hfa, Hfb. reflexivity.
Qed.

Lemma logs_client_requests_same (s s' : St E) :
  calls s' = calls s -> audit s' = audit s -> logs_client_requests s s'.
Proof.
  intros Hc Ha. exists [], []. rewrite !app_nil_r.
  repeat split; try assumption. constructor.
Qed.

Lemma logs_client_requests_axios :
  forall A (send : Request -> World E -> Reply A * World E) r s,
    true = true -> via_client (kind r) = false ->
    logs_client_requests s (snd (axios_get E send r s)).
Proof.
  intros A send r s _ Hv.
  destruct (axios_get_run E send r s)
    as [s' [Hrun [_ [_ [Hcalls [_ Haud]]]]]].
  rewrite Hrun. simpl. exists [r], [].
  split; [ exact Hcalls | ].
  split; [ rewrite app_nil_r; exact Haud | ].
  split; [ constructor | ].
  simpl. rewrite Hv. reflexivity.
Qed.

Lemma logs_client_requests_client :
  forall A (send : Request -> World E -> Reply A * World E) r s,
    true = true -> via_client (kind r) = true ->
    logs_client_requests s (snd (client_send E config send r s)).
Proof.
  intros A send r s _ Hv.
  destruct (client_send_run E config send r s)
    as [s' [Hrun [_ [_ [Hcalls [_ Haud]]]]]].
  rewrite Hrun. simpl. exists [r]. eexists.
  split; [ exact Hcalls | ]. split; [ exact Haud | ]. split.
  - destruct (fst (send r (world s))); constructor; constructor.
  - simpl. rewrite Hv.
    destruct (fst (send r (world s))); reflexivity.
Qed.

(** X10. Run on its own, with no other call interleaved, an invocation
    hands to the audit logger, for each request it sends through
    [this.client] (the axios instance that carries the logging
    interceptors) and for no other, a request entry followed at once by
    the entry of its response or of its error, in the order sent.  The
    requests made through the global [axios] (the CQL search and every
    page fetch) are handed no entry. *)
Theorem invocation_logs_its_client_requests :
  forall (fuel : nat) (i : Invocation) (s : St E),
    exists sent entries,
      calls (exec E config fuel i s) = (calls s ++ sent)%list /\
      audit (exec E config fuel i s) = (audit s ++ entries)%list /\
      Balanced entries /\
      audited entries = filter (fun r => via_client (kind r)) sent.
Proof.
  intros fuel i s. change (logs_client_requests s (exec E config fuel i s)).
  apply (exec_follows E config logs_client_requests (fun _ => true)).
  - exact logs_client_requests_refl.
  - exact logs_client_requests_trans.
  - exact logs_client_requests_axios.
  - exact logs_client_requests_client.
  - intros sp s0. apply logs_client_requests_same; reflexivity.
  - intros m s0. destruct (debug_console_frame E config m s0)
      as [_ [_ [_ [Hc Ha]]]]. apply logs_client_requests_same; assumption.
  - reflexivity.
Qed.

(** *** At most one write *)

Lemma sent_only_reads (s s' : St E) :
  sent_only readKinds s s' ->
  exists reads, calls s' = (calls s ++ reads)%list /\ reads_only reads.
Proof.
  intros [sent [Hcalls Hq]]. exists sent. split; [ exact Hcalls | ].
  unfold reads_only. apply forallb_forall. intros r Hin.
  rewrite forallb_forall in Hq. specialize (Hq r Hin).
  rewrite mutating_kind. exact Hq.
Qed.

Lemma oneWriteLast_reads (s s' : St E) :
  sent_only readKinds s s' -> oneWriteLast s s'.
Proof.
  intros H. destruct (sent_only_reads s s' H) as [reads [Hc Hr]].
  exists reads. split; [ exact Hr | left; exact Hc ].
Qed.

Lemma oneWriteLast_after_reads (s s1 s2 : St E) :
  sent_only readKinds s s1 -> oneWriteLast s1 s2 -> oneWriteLast s s2.
Proof.
  intros H1 [reads2 [Hr2 H2]].
  destruct (sent_only_reads s s1 H1) as [reads1 [Hc1 Hr1]].
  exists (reads1 ++ reads2)%list. split.
  - unfold reads_only in *. rewrite forallb_app, Hr1, Hr2. reflexivity.
  - destruct H2 as [H2 | [w [Hw H2]]]; [ left | right; exists w; split;
                                                 [ exact Hw | ] ];
      rewrite H2, Hc1, <- !app_assoc; reflexivity.
Qed.

Lemma oneWriteLast_write {A}
      (send : Request -> World E -> Reply A * World E) (r : Request)
      (s : St E) :
  mutating r = true ->
  oneWriteLast s (snd (client_send E config send r s)).
Proof.
  intros Hr.
  destruct (client_send_run E config send r s)
    as [s' [Hrun [_ [_ [Hcalls _]]]]].
  rewrite Hrun. exists []. split; [ reflexivity | ].
  right. exists r. split; [ exact Hr | exact Hcalls ].
Qed.

Lemma readKinds_of (i : Invocation) :
  updates i = false -> forall k, In k (kinds_of i) -> readKinds k = true.
Proof.
  intros Hi k Hin. destruct i; try discriminate; simpl in Hin;
    repeat (destruct Hin as [Hin | Hin]; [ rewrite <- Hin; reflexivity | ]);
    destruct Hin.
Qed.

(** The write that follows the fetch of the page in [updatePage],
    [deletePage] and [movePage]. *)
Lemma oneWriteLast_after_getPage {A} (pageId : string)
      (k : ConfluencePage -> M E A) (s : St E) :
  (forall page s1, oneWriteLast s1 (snd (k page s1))) ->
  oneWriteLast s (snd (bind E (getPage E config pageId None) k s)).
Proof.
  intros Hk.
  pose proof (exec_sent_only readKinds 0 (InvGetPage pageId None) s
                (readKinds_of (InvGetPage pageId None) eq_refl)) as Hget.
  simpl in Hget. unfold bind.
  destruct (getPage E config pageId None s) as [[page | e | ] s1];
    simpl in Hget |- *.
  - eapply oneWriteLast_after_reads; [ exact Hget | apply Hk ].
  - apply oneWriteLast_reads; exact Hget.
  - apply oneWriteLast_reads; exact Hget.
Qed.

Lemma oneWriteLast_after_check {A} (what : string) (page : ConfluencePage)
      (c : M E A) (s : St E) :
  (forall s1, oneWriteLast s1 (snd (c s1))) ->
  oneWriteLast s
    (snd (bind E (checkPageSpace E config what page) (fun _ => c) s)).
Proof.
  intros Hc. unfold bind, checkPageSpace.
  destruct (negb (Js.truthy_ostr (page_space page)));
    [ apply oneWriteLast_reads, sent_only_refl | ].
  destruct (negb (allowed config (ostr (page_space page))));
    [ apply oneWriteLast_reads, sent_only_refl | ].
  simpl. apply Hc.
Qed.

(** X11. Whatever the remote system answers, a method sends at most one
    POST, PUT or DELETE, and when it sends one it is the last request of
    the invocation: everything before it is a read, and nothing is sent
    after it, be it accepted or rejected. *)
Theorem methods_write_at_most_once_and_last :
  forall (fuel : nat) (i : Invocation) (s : St E),
    exists reads,
      reads_only reads /\
      (calls (exec E config fuel i s) = (calls s ++ reads)%list \/
       exists w, mutating w = true /\
                 calls (exec E config fuel i s)
                 = (calls s ++ reads ++ [w])%list).
Proof.
  intros fuel i s. change (oneWriteLast s (exec E config fuel i s)).
  destruct (updates i) eqn:Hi.
  - destruct i; try discriminate; simpl.
    + (* createPage *)
      unfold createPage.
      destruct (negb (allowed config spaceKey));
        [ apply oneWriteLast_reads, sent_only_refl | ].
      pose proof (exec_sent_only readKinds fuel (InvGetSpaceByKey spaceKey) s
                    (readKinds_of (InvGetSpaceByKey spaceKey) eq_refl))
        as Hget.
      simpl in Hget. unfold bind.
      destruct (getSpaceByKey E config fuel spaceKey s)
        as [[space | e | ] s1]; simpl in Hget |- *;
        try (apply oneWriteLast_reads; exact Hget).
      destruct (negb (Js.truthy_str (space_id space)));
        [ apply oneWriteLast_reads; exact Hget | ].
      eapply oneWriteLast_after_reads; [ exact Hget | ].
      apply oneWriteLast_write. reflexivity.
    + (* updatePage *)
      unfold updatePage. apply oneWriteLast_after_getPage. intros page s1.
      apply oneWriteLast_after_check. intros s2.
      apply oneWriteLast_write. reflexivity.
    + (* deletePage *)
      unfold deletePage. apply oneWriteLast_after_getPage. intros page s1.
      apply oneWriteLast_after_check. intros s2.
      apply oneWriteLast_write. reflexivity.
    + (* movePage *)
      unfold movePage. apply oneWriteLast_after_getPage. intros page s1.
      apply oneWriteLast_after_check. intros s2.
      destruct (negb (allowed config targetSpaceKey));
        [ apply oneWriteLast_reads, sent_only_refl | ].
      apply oneWriteLast_write. reflexivity.
  - apply oneWriteLast_reads, exec_sent_only, readKinds_of, Hi.
Qed.

(** *** Reading pages *)

Lemma getPage_ok (pageId : string) (bodyFormat : option string)
      (s : St E) (page : ConfluencePage) (s' : St E) :
  getPage E config pageId bodyFormat s = (Ok page, s') ->
  Js.truthy_ostr (page_space page) = true /\
  allowed config (ostr (page_space page)) = true /\
  fst (http_page E
         (GetContent pageId
            (if Js.truthy_ostr bodyFormat
             then "space,version" ++ "," ++ bodyExpand (ostr bodyFormat)
             else "space,version"))
         (world s)) = inr page.
Proof.
  intros Hrun.
  destruct (getPage_run E config pageId bodyFormat s)
    as [s1 [_ [_ [_ [_ [_ Hget]]]]]].
  cbv zeta in Hget. rewrite Hget in Hrun. clear Hget.
  destruct (fst (http_page E _ (world s))) as [e | data] eqn:Hreply;
    [ discriminate | ].
  destruct (Js.truthy_ostr (page_space data)) eqn:Ht; simpl in Hrun;
    [ | discriminate ].
  destruct (allowed config (ostr (page_space data))) eqn:Ha; simpl in Hrun;
    [ | discriminate ].
  inversion Hrun; subst. repeat split; assumption.
Qed.

(** X12. [getPage] hands out a page only when the space key of the page is
    present and in the allowlist.  [getPageChildren] checks the parent
    page, and it alone: it returns a listing only when the parent is in an
    allowed space; otherwise it stops after the fetch of the parent, and
    the listing of the children is never requested. *)
Theorem getPage_checks_the_space_of_the_page :
  forall (pageId : string) (limit start : Z) (bodyFormat : option string)
         (s : St E),
    (forall page s',
        getPage E config pageId bodyFormat s = (Ok page, s') ->
        Js.truthy_ostr (page_space page) = true /\
        In (ostr (page_space page)) (allowedSpaces config)) /\
    (forall r s',
        getPageChildren E config pageId limit start bodyFormat s = (Ok r, s') ->
        exists parent,
          fst (http_page E (GetContent pageId "space,version") (world s))
          = inr parent /\
          In (ostr (page_space parent)) (allowedSpaces config)) /\
    ((forall parent,
         fst (http_page E (GetContent pageId "space,version") (world s))
         = inr parent ->
         Js.truthy_ostr (page_space parent) = false \/
         validateSpaceAccess (ostr (page_space parent)) (allowedSpaces config)
         = false) ->
     calls (snd (getPageChildren E config pageId limit start bodyFormat s))
     = (calls s ++ [GetContent pageId "space,version"])%list).
Proof.
  intros pageId limit start bodyFormat s. split; [ | split ].
  - intros page s' Hrun. apply getPage_ok in Hrun.
    destruct Hrun as [Ht [Ha _]]. split; [ exact Ht | ].
    apply validateSpaceAccess_In. exact Ha.
  - intros r s' Hrun. unfold getPageChildren, bind in Hrun.
    destruct (getPage E config pageId None s) as [[parent | e | ] s1] eqn:Hget;
      try discriminate.
    apply getPage_ok in Hget. destruct Hget as [_ [Ha Hreply]].
    exists parent. split; [ exact Hreply | ].
    apply validateSpaceAccess_In. exact Ha.
  - intros Hparent. unfold getPageChildren, bind.
    destruct (getPage_run E config pageId None s)
      as [s1 [_ [_ [Hcalls [_ [_ Hget]]]]]].
    simpl in Hcalls, Hget. rewrite Hget. clear Hget.
    destruct (fst (http_page E (GetContent pageId "space,version") (world s)))
      as [e | parent] eqn:Hreply; [ exact Hcalls | ].
    destruct (Hparent parent eq_refl) as [Ht | Ha].
    + rewrite Ht. exact Hcalls.
    + change (validateSpaceAccess (ostr (page_space parent))
                                  (allowedSpaces config))
        with (allowed config (ostr (page_space parent))) in Ha.
      rewrite Ha.
      destruct (negb (Js.truthy_ostr (page_space parent))); exact Hcalls.
Qed.

(** *** Creating a page *)

Lemma getSpaceByKey_ok (fuel : nat) (k : string) (s : St E)
      (sp : ConfluenceSpace) (s1 : St E) :
  cacheAllowed E config s ->
  getSpaceByKey E config fuel k s = (Ok sp, s1) ->
  space_key sp = k /\ allowed config k = true.
Proof.
  intros Hinv Hrun. unfold getSpaceByKey in Hrun.
  destruct (negb (allowed config k)) eqn:Hk; [ discriminate | ].
  apply negb_false_iff in Hk. split; [ | exact Hk ].
  unfold bind, isSpaceCacheValid in Hrun. cbv beta iota in Hrun.
  assert (Hlookup : findSpace E config fuel k None s = (Ok sp, s1) ->
                    space_key sp = k)
    by (intros Hfind; apply (findSpace_found E config) in Hfind; tauto).
  destruct (Js.map_get k (spaceCacheExpiry s)) as [e | ];
    [ | apply Hlookup; exact Hrun ].
  destruct (now E (world s) <? e); [ | apply Hlookup; exact Hrun ].
  destruct (Js.map_get k (spaceCache s)) as [c | ] eqn:Hc;
    [ | apply Hlookup; exact Hrun ].
  inversion Hrun; subst. apply map_get_In in Hc.
  apply (Hinv k sp Hc).
Qed.

(** X13. A page is created only in the space that was asked for.  When
    [createPage] returns a page, the last request it sent is the POST of
    that page, the POST names the internal identifier of a space whose key
    is the requested key, that key is in the allowlist, and the page
    returned is the remote system's answer to the POST.  When the space
    that was found has no identifier, no POST is sent. *)
Theorem createPage_posts_into_the_requested_space :
  forall (fuel : nat) (spaceKey title content_ : string)
         (parentId : option string) (s : St E),
    reachable E config s ->
    (forall page s',
        createPage E config fuel spaceKey title content_ parentId s
        = (Ok page, s') ->
        exists space s1,
          getSpaceByKey E config fuel spaceKey s = (Ok space, s1) /\
          space_key space = spaceKey /\
          In spaceKey (allowedSpaces config) /\
          let pageData :=
            {| cp_spaceId := space_id space; cp_status := "current";
               cp_title := title; cp_body_representation := "storage";
               cp_body_value := content_;
               cp_parentId :=
                 if Js.truthy_ostr parentId then parentId else None |} in
          calls s' = (calls s1 ++ [PostPage pageData])%list /\
          fst (http_page E (PostPage pageData) (world s1)) = inr page) /\
    (forall space s1,
        getSpaceByKey E config fuel spaceKey s = (Ok space, s1) ->
        space_id space = EmptyString ->
        createPage E config fuel spaceKey title content_ parentId s
        = (Throw (Error ("Unable to get space ID for space: " ++ spaceKey)),
           s1)).
Proof.
  intros fuel spaceKey title content_ parentId s Hreach.
  pose proof (reachable_cacheAllowed E config s Hreach) as Hinv.
  split.
  - intros page s' Hrun. unfold createPage in Hrun.
    destruct (negb (allowed config spaceKey)); [ discriminate | ].
    unfold bind in Hrun.
    destruct (getSpaceByKey E config fuel spaceKey s)
      as [[space | e | ] s1] eqn:Hget; try discriminate.
    destruct (negb (Js.truthy_str (space_id space))); [ discriminate | ].
    destruct (getSpaceByKey_ok fuel spaceKey s space s1 Hinv Hget)
      as [Hkey Hallowed].
    exists space, s1. split; [ reflexivity | ]. split; [ exact Hkey | ].
    split; [ apply validateSpaceAccess_In; exact Hallowed | ].
    cbv zeta.
    match type of Hrun with
    | client_send _ _ _ ?r _ = _ =>
        destruct (client_send_run E config (http_page E) r s1)
          as [s2 [Hsend [_ [_ [Hcalls _]]]]]
    end.
    rewrite Hsend in Hrun.
    destruct (fst (http_page E _ (world s1))) as [e | reply] eqn:Hreply;
      [ discriminate | ].
    inversion Hrun; subst. split; [ exact Hcalls | reflexivity ].
  - intros space s1 Hget Hid. unfold createPage, bind.
    destruct (getSpaceByKey_ok fuel spaceKey s space s1 Hinv Hget)
      as [_ Hallowed].
    rewrite Hallowed. cbn [negb]. cbv beta iota.
    rewrite Hget, Hid. reflexivity.
Qed.

(** *** Listing spaces fills the cache *)

Lemma cacheSpaces_get (spaces : list ConfluenceSpace) :
  forall (s : St E) (k : string) (c : ConfluenceSpace),
    Js.map_get k
      (spaceCache (fold_left (fun st sp => cacheSpace_st E sp st) spaces s))
    = Some c ->
    (In c spaces /\ space_key c = k) \/
    (Js.map_get k (spaceCache s) = Some c /\
     forall x, In x spaces -> space_key x <> k).
Proof.
  induction spaces as [ | x rest IH ]; intros s k c Hget; simpl in Hget.
  - right. split; [ exact Hget | intros y [] ].
  - destruct (IH _ _ _ Hget) as [[Hin Hkey] | [Hold Hrest]].
    + left. split; [ right; exact Hin | exact Hkey ].
    + unfold cacheSpace_st in Hold. simpl in Hold.
      destruct (string_dec (space_key x) k) as [Heq | Hne].
      * rewrite <- Heq, map_get_set_same in Hold. inversion Hold; subst.
        left. split; [ left; reflexivity | reflexivity ].
      * rewrite map_get_set_other in Hold by assumption.
        right. split; [ exact Hold | ].
        intros y [Hy | Hy]; [ subst y; exact Hne | apply Hrest; exact Hy ].
Qed.

(** X14. After [listSpaces] has answered, every space of its result can
    be had from [getSpaceByKey] without any request: asked for the key of
    a listed space in the state [listSpaces] left, [getSpaceByKey] leaves
    the state untouched and returns a space of the listing with that
    key. *)
Theorem listSpaces_fills_the_cache :
  forall (limit : Z) (cursor : option string) (s : St E)
         (r : PaginatedResult ConfluenceSpace) (s' : St E),
    listSpaces E config limit cursor s = (Ok r, s') ->
    forall (sp : ConfluenceSpace) (fuel : nat),
      In sp (results r) ->
      exists cached,
        getSpaceByKey E config fuel (space_key sp) s' = (Ok cached, s') /\
        In cached (results r) /\
        space_key cached = space_key sp.
Proof.
  intros limit cursor s r s' Hrun sp fuel Hin.
  destruct (listSpaces_run E config limit cursor s)
    as [s1 [_ [_ [_ [_ Hlist]]]]].
  cbv zeta in Hlist. rewrite Hlist in Hrun. clear Hlist.
  destruct (fst (http_spaces E _ (world s))) as [e | data];
    [ discriminate | ].
  inversion Hrun; subst r s'; clear Hrun. cbn [results] in *.
  set (kept := filter (fun sp => allowed config (space_key sp))
                      (results data)) in *.
  assert (Hallowed : allowed config (space_key sp) = true)
    by (apply filter_In in Hin; tauto).
  destruct (cacheSpaces_cachedNow E kept s1 (space_key sp))
    as [[c Hc] He];
    [ right; exists sp; split; [ exact Hin | reflexivity ] | ].
  exists c. split.
  - apply (getSpaceByKey_hit E config) with
      (expiry := now E (world (fold_left (fun st sp => cacheSpace_st E sp st)
                                         kept s1)) + CACHE_TTL);
      try assumption.
    unfold CACHE_TTL. lia.
  - destruct (cacheSpaces_get kept s1 (space_key sp) c Hc)
      as [[Hc_in Hc_key] | [_ Hnone]].
    + split; assumption.
    + exfalso. apply (Hnone sp Hin). reflexivity.
Qed.

(** *** Looking a space up by its identifier *)

Lemma find_exists {A} (p : A -> bool) (xs : list A) (x : A) :
  In x xs -> p x = true -> exists y, Js.find p xs = Some y /\ p y = true.
Proof.
  induction xs as [ | z zs IH ]; intros Hin Hp; [ destruct Hin | ].
  simpl. destruct (p z) eqn:Hz.
  - exists z. split; [ reflexivity | exact Hz ].
  - destruct Hin as [Heq | Hin]; [ congruence | apply IH; assumption ].
Qed.

Lemma map_set_In_self {V} (k : string) (v : V) (m : list (string * V)) :
  In (k, v) (Js.map_set k v m).
Proof.
  induction m as [ | [k' v'] m IH ]; simpl.
  - left; reflexivity.
  - destruct (String.eqb k' k); [ left; reflexivity | right; exact IH ].
Qed.

(** X15. [getSpaceById] validates before it caches, and caches what it
    returns.  When the space the remote system answers with is outside
    the allowlist, the method throws the access-denied error naming that
    space's key after its one GET, and the cache is as it was.  When the
    method has returned a space that carries the identifier asked for, a
    second call in the state it left returns a space with that
    identifier from the cache, without any request. *)
Theorem getSpaceById_validates_then_caches :
  forall (spaceId : string) (s : St E),
    (forall data,
        cachedById E spaceId s = None ->
        fst (http_space E (GetSpace spaceId) (world s)) = inr data ->
        validateSpaceAccess (space_key data) (allowedSpaces config) = false ->
        exists s',
          getSpaceById E config spaceId s
          = (Throw (Error ("Access denied to space: " ++ space_key data)),
             s') /\
          same_cache s s' /\
          calls s' = (calls s ++ [GetSpace spaceId])%list) /\
    (forall sp s',
        getSpaceById E config spaceId s = (Ok sp, s') ->
        space_id sp = spaceId ->
        exists sp',
          getSpaceById E config spaceId s' = (Ok sp', s') /\
          space_id sp' = spaceId).
Proof.
  intros spaceId s. split.
  - intros data Hmiss Hreply Hdenied.
    change (validateSpaceAccess (space_key data) (allowedSpaces config))
      with (allowed config (space_key data)) in Hdenied.
    destruct (client_send_run E config (http_space E) (GetSpace spaceId) s)
      as [s1 [Hsend [_ [Hcache [Hcalls _]]]]].
    rewrite Hreply in Hsend. exists s1.
    split; [ | split; assumption ].
    unfold getSpaceById. rewrite Hmiss. unfold bind.
    rewrite Hsend, Hdenied. reflexivity.
  - intros sp s' Hrun Hid. unfold getSpaceById in Hrun.
    destruct (cachedById E spaceId s) as [c | ] eqn:Hc.
    + inversion Hrun; subst c s'. exists sp.
      unfold getSpaceById. rewrite Hc. split; [ reflexivity | exact Hid ].
    + unfold bind in Hrun.
      destruct (client_send E config (http_space E) (GetSpace spaceId) s)
        as [[data | e | ] s1]; try discriminate.
      destruct (negb (allowed config (space_key data))); [ discriminate | ].
      unfold cacheSpace, ret in Hrun. inversion Hrun; subst sp s'.
      clear Hrun.
      destruct (find_exists
                  (fun kv : string * ConfluenceSpace =>
                     String.eqb (space_id (snd kv)) spaceId &&
                     match Js.map_get (fst kv)
                             (spaceCacheExpiry (cacheSpace_st E data s1)) with
                     | Some expiry =>
                         now E (world (cacheSpace_st E data s1)) <? expiry
                     | None => false
                     end)
                  (spaceCache (cacheSpace_st E data s1))
                  (space_key data, data))
        as [[k' sp'] [Hfind Hp]].
      * apply map_set_In_self.
      * cbn [fst snd]. rewrite Hid, String.eqb_refl.
        unfold cacheSpace_st. cbn [spaceCacheExpiry world].
        rewrite map_get_set_same. apply Z.ltb_lt. unfold CACHE_TTL. lia.
      * exists sp'. unfold getSpaceById, cachedById.
        rewrite Hfind. cbn [option_map snd].
        split; [ reflexivity | ].
        apply andb_true_iff in Hp. destruct Hp as [Hp _].
        apply String.eqb_eq in Hp. exact Hp.
Qed.

(** *** A lookup that does not find the space *)

Lemma find_none {A} (p : A -> bool) (xs : list A) :
  (forall x, In x xs -> p x = false) -> Js.find p xs = None.
Proof.
  induction xs as [ | x rest IH ]; intros H; [ reflexivity | ].
  simpl. rewrite (H x (or_introl eq_refl)). apply IH.
  intros y Hy. apply H. right. exact Hy.
Qed.

(** X16. When the key is allowed, the cache has no live entry for it and
    the first page of spaces holds no space with that key, [getSpaceByKey]
    fails after that one request: with the space-not-found error naming
    the key when the page has no next link, and with the URL constructor's
    type error when the next link is not a URL it accepts. *)
Theorem getSpaceByKey_fails_on_the_first_page :
  forall (fuel : nat) (k : string) (s : St E)
         (data : PaginatedResult ConfluenceSpace),
    validateSpaceAccess k (allowedSpaces config) = true ->
    (forall expiry, Js.map_get k (spaceCacheExpiry s) = Some expiry ->
                    expiry <= now E (world s)) ->
    fst (http_spaces E (GetSpaces 100 None) (world s)) = inr data ->
    (forall sp, In sp (results data) -> space_key sp <> k) ->
    exists s',
      calls s' = (calls s ++ [GetSpaces 100 None])%list /\
      (Js.truthy_ostr (links_next data) = false ->
       getSpaceByKey E config (S fuel) k s
       = (Throw (Error ("Space not found: " ++ k)), s')) /\
      (Js.truthy_ostr (links_next data) = true ->
       url_cursor E (ostr (links_next data)) = None ->
       getSpaceByKey E config (S fuel) k s
       = (Throw (TypeError "Invalid URL"), s')).
Proof.
  intros fuel k s data Hk Hstale Hreply Hnone.
  change (validateSpaceAccess k (allowedSpaces config))
    with (allowed config k) in Hk.
  assert (Hmiss : getSpaceByKey E config (S fuel) k s
                  = findSpace E config (S fuel) k None s).
  { unfold getSpaceByKey, bind, isSpaceCacheValid.
    rewrite Hk. cbn [negb]. cbv beta iota.
    destruct (Js.map_get k (spaceCacheExpiry s)) as [e | ] eqn:He;
      [ | reflexivity ].
    specialize (Hstale e eq_refl). apply Z.ltb_ge in Hstale.
    rewrite Hstale. reflexivity. }
  destruct (listSpaces_run E config 100 None s)
    as [s1 [_ [_ [_ [Hcalls Hlist]]]]].
  cbv zeta in Hlist. simpl Js.truthy_ostr in Hlist, Hcalls.
  cbv iota in Hlist, Hcalls. rewrite Hreply in Hlist.
  set (kept := filter (fun sp => allowed config (space_key sp))
                      (results data)) in *.
  pose proof (cacheSpaces_frame E kept s1) as Hframe. cbv zeta in Hframe.
  destruct Hframe as [_ [Hc _]].
  assert (Hfind : Js.find (fun sp => String.eqb (space_key sp) k) kept = None).
  { apply find_none. intros sp Hin. apply String.eqb_neq.
    apply Hnone. apply filter_In in Hin. tauto. }
  exists (fold_left (fun st sp => cacheSpace_st E sp st) kept s1).
  split; [ rewrite Hc; exact Hcalls | ]. split.
  - intros Hnext. rewrite Hmiss, findSpace_S. unfold bind.
    rewrite Hlist. cbn [results]. fold kept. rewrite Hfind.
    unfold nextCursor. cbn [links_next]. rewrite Hnext. reflexivity.
  - intros Hnext Hurl. rewrite Hmiss, findSpace_S. unfold bind.
    rewrite Hlist. cbn [results]. fold kept. rewrite Hfind.
    unfold nextCursor. cbn [links_next]. rewrite Hnext, Hurl. reflexivity.
Qed.

(** *** The dispatcher *)

(** *** The search request *)

(** X18. The search text is pasted into the CQL as it is, between double
    quotes and with nothing escaped.  For a query alone and an allowed
    space key [k], the one request sent is the CQL search whose query reads
    [space = "k" AND text ~ "query"].  So the restriction to the space
    binds only as far as the text leaves it: for every space key [x], in
    the allowlist or not, there is a query with which the CQL sent reads
    [space = "k" AND text ~ "a" OR space = "x"]. *)
Theorem searchContent_pastes_the_query_unescaped :
  forall (k : string) (limit start : Z) (s : St E),
    Js.truthy_str k = true ->
    validateSpaceAccess k (allowedSpaces config) = true ->
    (forall query,
        Js.truthy_str query = true ->
        calls (snd (searchContent E config (Some query) (Some k) limit None
                                  start None s))
        = (calls s ++
           [GetSearch ("space = " ++ quoted k ++ " AND text ~ "
                         ++ Js.dq ++ query ++ Js.dq)
                      limit start "version,space"])%list) /\
    (forall x,
        exists query,
          calls (snd (searchContent E config (Some query) (Some k) limit None
                                    start None s))
          = (calls s ++
             [GetSearch ("space = " ++ quoted k ++ " AND text ~ "
                           ++ quoted "a" ++ " OR space = " ++ quoted x)
                        limit start "version,space"])%list).
Proof.
  intros k limit start s Hk Hallowed.
  assert (Hquery : forall query,
             Js.truthy_str query = true ->
             calls (snd (searchContent E config (Some query) (Some k) limit
                                       None start None s))
             = (calls s ++
                [GetSearch ("space = " ++ quoted k ++ " AND text ~ "
                              ++ Js.dq ++ query ++ Js.dq)
                           limit start "version,space"])%list).
  { intros query Hq. unfold searchContent. cbv zeta.
    cbn [Js.truthy_ostr ostr]. rewrite Hq, Hk.
    change (validateSpaceAccess k (allowedSpaces config))
      with (allowed config k) in Hallowed.
    rewrite Hallowed. cbn [negb length Nat.eqb app Js.join].
    unfold bind at 1. unfold ret at 1. unfold bind.
    destruct (axios_get_run E (http_search E)
                (GetSearch ("space = " ++ quoted k ++ " AND "
                              ++ "text ~ " ++ quoted query)
                           limit start "version,space") s)
      as [s1 [Hrun [_ [_ [Hcalls _]]]]].
    rewrite Hrun.
    destruct (fst (http_search E _ (world s))); exact Hcalls. }
  split; [ exact Hquery | ].
  intros x. exists ("a" ++ Js.dq ++ " OR space = " ++ Js.dq ++ x).
  rewrite Hquery by reflexivity. reflexivity.
Qed.

(** *** The body fan-out *)

Lemma same_but_body_refl (p : ConfluencePage) : same_but_body p p.
Proof. repeat split. Qed.

Lemma enrichPage_trace (format : string) (page : ConfluencePage)
      (s : St E) :
  exists page' s1,
    enrichPage E config format page s = (Ok page', s1) /\
    same_but_body page page' /\
    calls s1
    = (calls s ++ [GetContent (page_id page) (format ++ ",version,space")])%list.
Proof.
  unfold enrichPage.
  destruct (axios_get_run E (http_page E)
              (GetContent (page_id page) (format ++ ",version,space")) s)
    as [s1 [Hrun [_ [_ [Hcalls _]]]]].
  rewrite Hrun.
  destruct (fst (http_page E _ (world s))) as [e | v1].
  - eexists. eexists. split; [ reflexivity | ].
    split; [ apply same_but_body_refl | ].
    destruct (debug_console_frame E config (bodyWarning page) s1)
      as [_ [_ [_ [Hc _]]]].
    rewrite Hc. exact Hcalls.
  - destruct (page_body v1) as [body | ]; [ destruct (truthy body) | ];
      eexists; eexists; (split; [ reflexivity | ]);
      (split; [ repeat split | exact Hcalls ]).
Qed.

Lemma enrichAll_trace (format : string) (pages : list ConfluencePage) :
  forall (s : St E),
    exists pages' s',
      enrichAll E config format pages s = (Ok pages', s') /\
      Forall2 same_but_body pages pages' /\
      calls s' = (calls s ++ fanoutRequests format pages)%list.
Proof.
  induction pages as [ | page rest IH ]; intros s.
  - exists [], s. unfold fanoutRequests. simpl. rewrite app_nil_r.
    repeat split. constructor.
  - cbn [enrichAll]. unfold bind.
    destruct (enrichPage_trace format page s)
      as [page' [s1 [Hrun [Hsame Hcalls]]]].
    rewrite Hrun.
    destruct (IH s1) as [rest' [s2 [Hrest [Hall Hcalls2]]]].
    rewrite Hrest. exists (page' :: rest'), s2. unfold ret.
    split; [ reflexivity | ]. split; [ constructor; assumption | ].
    rewrite Hcalls2, Hcalls, <- app_assoc. reflexivity.
Qed.

Lemma enrichListing_trace (bodyFormat : option string)
      (data : PaginatedResult ConfluencePage) (s : St E) :
  exists r s',
    enrichListing E config bodyFormat data s = (Ok r, s') /\
    Forall2 same_but_body (results data) (results r) /\
    size r = size data /\ links_next r = links_next data /\
    calls s'
    = (calls s ++
       if Js.truthy_ostr bodyFormat
       then fanoutRequests (bodyExpand (ostr bodyFormat)) (results data)
       else [])%list /\
    (Js.truthy_ostr bodyFormat = false -> r = data).
Proof.
  unfold enrichListing.
  assert (Hrefl : Forall2 same_but_body (results data) (results data)).
  { induction (results data); constructor;
      [ apply same_but_body_refl | assumption ]. }
  destruct (Js.truthy_ostr bodyFormat) eqn:Hfmt; cbn [andb].
  - destruct (0 <? Z.of_nat (length (results data))) eqn:Hlen.
    + unfold bind.
      destruct (enrichAll_trace (bodyExpand (ostr bodyFormat))
                                (results data) s)
        as [pages' [s' [Hrun [Hall Hcalls]]]].
      rewrite Hrun. eexists. exists s'. unfold ret.
      split; [ reflexivity | ]. cbn [results size links_next].
      repeat split; try assumption. discriminate.
    + exists data, s. unfold ret.
      assert (Hnil : results data = []).
      { revert Hlen. destruct (results data); [ reflexivity | ].
        intros Hlen. apply Z.ltb_ge in Hlen. simpl length in Hlen. lia. }
      split; [ reflexivity | ]. split; [ exact Hrefl | ].
      rewrite Hnil. unfold fanoutRequests. simpl. rewrite app_nil_r.
      repeat split.
  - exists data, s. unfold ret. rewrite app_nil_r. repeat split.
    exact Hrefl.
Qed.

(** X19. A content listing costs one request, plus one per listed page
    when a body format is asked for.  Given the listing the remote system
    answers with, [getSpaceContent] returns as many pages, each one the
    listed page but for its body; after the listing request it sends, when
    a body format is given, exactly one page fetch per listed page, in the
    order of the listing, and when none is given no further request, and
    then the result is the remote listing itself.  [getPageChildren] does
    the same after the fetch of the parent page. *)
Theorem listings_fetch_one_body_per_page :
  forall (limit start : Z) (bodyFormat : option string) (s : St E)
         (data : PaginatedResult ConfluencePage),
    let fetches :=
      if Js.truthy_ostr bodyFormat
      then fanoutRequests (bodyExpand (ostr bodyFormat)) (results data)
      else [] in
    (forall spaceKey,
        validateSpaceAccess spaceKey (allowedSpaces config) = true ->
        fst (http_pages E (GetPages spaceKey limit start) (world s))
        = inr data ->
        exists r s',
          getSpaceContent E config spaceKey limit start bodyFormat s
          = (Ok r, s') /\
          Forall2 same_but_body (results data) (results r) /\
          calls s'
          = (calls s ++ GetPages spaceKey limit start :: fetches)%list /\
          (Js.truthy_ostr bodyFormat = false -> r = data)) /\
    (forall pageId parent w0,
        http_page E (GetContent pageId "space,version") (world s)
        = (inr parent, w0) ->
        Js.truthy_ostr (page_space parent) = true ->
        validateSpaceAccess (ostr (page_space parent)) (allowedSpaces config)
        = true ->
        fst (http_pages E (GetChildren pageId limit start) w0) = inr data ->
        exists r s',
          getPageChildren E config pageId limit start bodyFormat s
          = (Ok r, s') /\
          Forall2 same_but_body (results data) (results r) /\
          calls s'
          = (calls s ++ GetContent pageId "space,version"
                     :: GetChildren pageId limit start :: fetches)%list /\
          (Js.truthy_ostr bodyFormat = false -> r = data)).
Proof.
  intros limit start bodyFormat s data fetches. split.
  - intros spaceKey Hallowed Hreply.
    change (validateSpaceAccess spaceKey (allowedSpaces config))
      with (allowed config spaceKey) in Hallowed.
    destruct (client_send_run E config (http_pages E)
                              (GetPages spaceKey limit start) s)
      as [s1 [Hsend [_ [_ [Hcalls _]]]]].
    rewrite Hreply in Hsend.
    destruct (enrichListing_trace bodyFormat data s1)
      as [r [s2 [Hrun [Hall [_ [_ [Hcalls2 Hsame]]]]]]].
    exists r, s2.
    split; [ unfold getSpaceContent, bind; rewrite Hallowed; cbn [negb];
             cbv beta iota; rewrite Hsend; exact Hrun | ].
    split; [ exact Hall | ]. split; [ | exact Hsame ].
    rewrite Hcalls2, Hcalls, <- app_assoc. reflexivity.
  - intros pageId parent w0 Hget Htruthy Hallowed Hreply.
    change (validateSpaceAccess (ostr (page_space parent))
                                (allowedSpaces config))
      with (allowed config (ostr (page_space parent))) in Hallowed.
    destruct (getPage_run E config pageId None s)
      as [s0 [Hw0 [_ [Hcalls0 [_ [_ Hpage]]]]]].
    simpl in Hw0, Hcalls0, Hpage. rewrite Hget in Hw0, Hpage.
    cbn [fst snd] in *. rewrite Htruthy, Hallowed in Hpage. simpl in Hpage.
    destruct (client_send_run E config (http_pages E)
                              (GetChildren pageId limit start) s0)
      as [s1 [Hsend [_ [_ [Hcalls _]]]]].
    rewrite Hw0, Hreply in Hsend.
    destruct (enrichListing_trace bodyFormat data s1)
      as [r [s2 [Hrun [Hall [_ [_ [Hcalls2 Hsame]]]]]]].
    exists r, s2. split.
    { unfold getPageChildren, bind. rewrite Hpage.
      unfold checkPageSpace. rewrite Htruthy, Hallowed. simpl.
      rewrite Hsend. exact Hrun. }
    split; [ exact Hall | ]. split; [ | exact Hsame ].
    rewrite Hcalls2, Hcalls, Hcalls0, <- !app_assoc. reflexivity.
Qed.

(** *** What is written, and where *)

Lemma last_request (sent : list Request) (prior reads : list Request)
      (g w : Request) :
  (prior ++ sent ++ [g])%list = (prior ++ reads ++ [w])%list -> g = w.
Proof.
  intros H. apply app_inv_head in H. apply app_inj_tail in H. tauto.
Qed.

(** The outcome of the fetch and of the checks that come before the write
    in [updatePage], [deletePage] and [movePage]: either they stop the
    method, with the page GET as its only request, or the page is in an
    allowed space and the method goes on in the state after the GET. *)
Lemma fetch_then_check {A} (pageId what : string) (k : M E A) (s : St E) :
  exists s1,
    calls s1 = (calls s ++ [GetContent pageId "space,version"])%list /\
    ((calls (snd (bind E (getPage E config pageId None)
                       (fun page =>
                          bind E (checkPageSpace E config what page)
                               (fun _ => k)) s))
      = calls s1) \/
     (exists page,
         fst (http_page E (GetContent pageId "space,version") (world s))
         = inr page /\
         Js.truthy_ostr (page_space page) = true /\
         allowed config (ostr (page_space page)) = true /\
         bind E (getPage E config pageId None)
              (fun page =>
                 bind E (checkPageSpace E config what page) (fun _ => k)) s
         = k s1)).
Proof.
  destruct (getPage_run E config pageId None s)
    as [s1 [_ [_ [Hcalls [_ [_ Hget]]]]]].
  simpl in Hcalls, Hget. exists s1. split; [ exact Hcalls | ].
  destruct (fst (http_page E (GetContent pageId "space,version") (world s)))
    as [e | page] eqn:Hreply;
    [ left; unfold bind at 1; rewrite Hget; reflexivity | ].
  destruct (Js.truthy_ostr (page_space page)) eqn:Ht;
    [ | left; unfold bind at 1; rewrite Hget; reflexivity ].
  destruct (allowed config (ostr (page_space page))) eqn:Ha;
    [ | left; unfold bind at 1; rewrite Hget; reflexivity ].
  right. exists page. split; [ reflexivity | ].
  split; [ exact Ht | ]. split; [ exact Ha | ].
  unfold bind at 1. rewrite Hget. cbn [negb].
  unfold bind, checkPageSpace. rewrite Ht, Ha. reflexivity.
Qed.

(** X20. A write reaches the remote system only for a page of an allowed
    space, and it carries what the caller gave.  When [updatePage],
    [deletePage] or [movePage] has sent a PUT or a DELETE, the page it
    fetched first is in an allowed space; the PUT of [updatePage] holds
    the caller's title, content and version; the DELETE is for the page
    asked for; and the PUT of [movePage] names a target space of the
    allowlist, with the title and the version of the page fetched. *)
Theorem writes_go_to_allowed_spaces_only :
  forall (pageId : string) (s : St E) (reads : list Request) (w : Request),
    mutating w = true ->
    let fetched page :=
      fst (http_page E (GetContent pageId "space,version") (world s))
      = inr page /\
      In (ostr (page_space page)) (allowedSpaces config) in
    (forall title content_ version,
        calls (snd (updatePage E config pageId title content_ version s))
        = (calls s ++ reads ++ [w])%list ->
        (exists page, fetched page) /\
        w = PutPageUpdate pageId
              {| up_id := pageId; up_status := "current"; up_title := title;
                 up_type := "page"; up_version_number := version;
                 up_body_storage_value := content_;
                 up_body_storage_representation := "storage" |}) /\
    (calls (snd (deletePage E config pageId s))
     = (calls s ++ reads ++ [w])%list ->
     (exists page, fetched page) /\ w = DeletePage pageId) /\
    (forall target parentId,
        calls (snd (movePage E config pageId target parentId s))
        = (calls s ++ reads ++ [w])%list ->
        In target (allowedSpaces config) /\
        exists page,
          fetched page /\
          w = PutPageMove pageId
                {| mv_version_number := page_version page;
                   mv_title := page_title page; mv_type := "page";
                   mv_space_key := target;
                   mv_ancestors := if Js.truthy_ostr parentId
                                   then Some [ostr parentId] else None |}).
Proof.
  intros pageId s reads w Hw fetched.
  assert (Hstop : forall s1 : St E,
             calls s1 = (calls s ++ [GetContent pageId "space,version"])%list ->
             calls s1 = (calls s ++ reads ++ [w])%list -> False).
  { intros s1 H1 H2. rewrite H1 in H2.
    apply (last_request [] (calls s) reads) in H2. subst w. discriminate. }
  split; [ | split ].
  - intros title content_ version Hcalls. unfold updatePage in Hcalls.
    match type of Hcalls with
    | calls (snd (bind _ _ (fun _ => bind _ _ (fun _ => ?k)) _)) = _ =>
        destruct (fetch_then_check pageId "Access denied to space: " k s)
          as [s1 [Hs1 [Hstopped | [page [Hreply [_ [Ha Hgo]]]]]]]
    end.
    + exfalso. rewrite Hstopped in Hcalls. eapply Hstop; eassumption.
    + rewrite Hgo in Hcalls.
      match type of Hcalls with
      | calls (snd (client_send _ _ _ ?r _)) = _ =>
          destruct (client_send_run E config (http_page E) r s1)
            as [s2 [Hsend [_ [_ [Hcalls2 _]]]]]
      end.
      rewrite Hsend in Hcalls. cbn [snd] in Hcalls.
      rewrite Hcalls2, Hs1, <- app_assoc in Hcalls.
      apply last_request in Hcalls. split; [ | symmetry; exact Hcalls ].
      exists page. split; [ exact Hreply | ].
      apply validateSpaceAccess_In. exact Ha.
  - intros Hcalls. unfold deletePage in Hcalls.
    match type of Hcalls with
    | calls (snd (bind _ _ (fun _ => bind _ _ (fun _ => ?k)) _)) = _ =>
        destruct (fetch_then_check pageId "Access denied to space: " k s)
          as [s1 [Hs1 [Hstopped | [page [Hreply [_ [Ha Hgo]]]]]]]
    end.
    + exfalso. rewrite Hstopped in Hcalls. eapply Hstop; eassumption.
    + rewrite Hgo in Hcalls.
      destruct (client_send_run E config (http_unit E) (DeletePage pageId) s1)
        as [s2 [Hsend [_ [_ [Hcalls2 _]]]]].
      rewrite Hsend in Hcalls. cbn [snd] in Hcalls.
      rewrite Hcalls2, Hs1, <- app_assoc in Hcalls.
      apply last_request in Hcalls. split; [ | symmetry; exact Hcalls ].
      exists page. split; [ exact Hreply | ].
      apply validateSpaceAccess_In. exact Ha.
  - intros target parentId Hcalls. unfold movePage in Hcalls.
    destruct (getPage_run E config pageId None s)
      as [s1 [_ [_ [Hs1 [_ [_ Hget]]]]]].
    simpl in Hs1, Hget. unfold bind at 1 in Hcalls. rewrite Hget in Hcalls.
    destruct (fst (http_page E (GetContent pageId "space,version") (world s)))
      as [e | page] eqn:Hreply;
      [ exfalso; eapply Hstop; eassumption | ].
    destruct (Js.truthy_ostr (page_space page)) eqn:Ht; cbn [negb] in Hcalls;
      [ | exfalso; eapply Hstop; eassumption ].
    destruct (allowed config (ostr (page_space page))) eqn:Ha;
      cbn [negb] in Hcalls;
      [ | exfalso; eapply Hstop; eassumption ].
    unfold bind, checkPageSpace in Hcalls. rewrite Ht, Ha in Hcalls.
    cbn [negb] in Hcalls. unfold ret at 1 in Hcalls.
    destruct (allowed config target) eqn:Htarget; cbn [negb] in Hcalls;
      [ | exfalso; eapply Hstop; eassumption ].
    match type of Hcalls with
    | calls (snd (client_send _ _ _ ?r _)) = _ =>
        destruct (client_send_run E config (http_page E) r s1)
          as [s2 [Hsend [_ [_ [Hcalls2 _]]]]]
    end.
    rewrite Hsend in Hcalls. cbn [snd] in Hcalls.
    rewrite Hcalls2, Hs1, <- app_assoc in Hcalls.
    apply last_request in Hcalls.
    split; [ apply validateSpaceAccess_In; exact Htarget | ].
    exists page. split; [ | symmetry; exact Hcalls ].
    split; [ reflexivity | apply validateSpaceAccess_In; exact Ha ].
Qed.

End WithEnv.

(** *** The properties at work on the small remote system *)

Lemma getPage_checks_the_space_of_the_page_witness :
  calls (snd (getPageChildren Demo.env Demo.config "p2" 25 0 None Demo.start))
  = [GetContent "p2" "space,version"].
Proof.
  refine (proj2 (proj2 (getPage_checks_the_space_of_the_page
                          Demo.env Demo.config "p2" 25 0 None Demo.start)) _).
  intros parent Hreply. right.
  vm_compute in Hreply. inversion Hreply. reflexivity.
Defined.

Lemma searchContent_pastes_the_query_unescaped_witness :
  exists query,
    calls (snd (searchContent Demo.env Demo.config (Some query) (Some "DEV")
                              25 None 0 None Demo.start))
    = [GetSearch ("space = " ++ quoted "DEV" ++ " AND text ~ " ++ quoted "a"
                    ++ " OR space = " ++ quoted "HR")
                 25 0 "version,space"] /\
    validateSpaceAccess "HR" (allowedSpaces Demo.config) = false.
Proof.
  destruct (proj2 (searchContent_pastes_the_query_unescaped
                     Demo.env Demo.config "DEV" 25 0 Demo.start
                     eq_refl eq_refl) "HR") as [query Hsent].
  exists query. split; [ exact Hsent | reflexivity ].
Defined.

Lemma createPage_posts_into_the_requested_space_witness :
  exists space s1,
    getSpaceByKey Demo.env Demo.config 5 "DEV" Demo.start = (Ok space, s1) /\
    space_key space = "DEV" /\
    calls (snd (createPage Demo.env Demo.config 5 "DEV" "Notes" "<p>hi</p>"
                           None Demo.start))
    = (calls s1 ++
       [PostPage {| cp_spaceId := space_id space; cp_status := "current";
                    cp_title := "Notes"; cp_body_representation := "storage";
                    cp_body_value := "<p>hi</p>"; cp_parentId := None |}])%list.
Proof.
  destruct (createPage_posts_into_the_requested_space
              Demo.env Demo.config 5 "DEV" "Notes" "<p>hi</p>" None Demo.start
              (reach_initial Demo.env Demo.config 0)) as [Hpost _].
  destruct (Hpost (Demo.mkPage "n1" "DEV" None)
                  (snd (createPage Demo.env Demo.config 5 "DEV" "Notes"
                                   "<p>hi</p>" None Demo.start))
                  eq_refl)
    as [space [s1 [Hget [Hkey [_ [Hcalls _]]]]]].
  exists space, s1. split; [ exact Hget | ]. split; [ exact Hkey | ].
  exact Hcalls.
Defined.

Lemma listSpaces_fills_the_cache_witness :
  exists cached,
    getSpaceByKey Demo.env Demo.config 0 "DEV"
                  (snd (listSpaces Demo.env Demo.config 50 None Demo.start))
    = (Ok cached, snd (listSpaces Demo.env Demo.config 50 None Demo.start)) /\
    space_key cached = "DEV".
Proof.
  destruct (listSpaces_fills_the_cache
              Demo.env Demo.config 50 None Demo.start
              {| results := [Demo.DEV]; size := 1; links_next := None;
                 other := JObj [] |}
              (snd (listSpaces Demo.env Demo.config 50 None Demo.start))
              eq_refl Demo.DEV 0%nat (or_introl eq_refl))
    as [cached [Hrun [_ Hkey]]].
  exists cached. split; [ exact Hrun | exact Hkey ].
Defined.

Lemma getSpaceById_validates_then_caches_witness :
  exists s',
    getSpaceById Demo.env Demo.config "2" Demo.start
    = (Throw (Error "Access denied to space: HR"), s') /\
    spaceCache s' = [] /\
    calls s' = [GetSpace "2"].
Proof.
  destruct (getSpaceById_validates_then_caches
              Demo.env Demo.config "2" Demo.start) as [Hdeny _].
  destruct (Hdeny Demo.HR eq_refl eq_refl eq_refl)
    as [s' [Hrun [[Hcache _] Hcalls]]].
  exists s'. split; [ exact Hrun | ]. split; [ exact Hcache | exact Hcalls ].
Defined.

Lemma getSpaceByKey_fails_on_the_first_page_witness :
  exists s',
    getSpaceByKey Demo.env Demo.config 1 "DOCS" Demo.start
    = (Throw (Error "Space not found: DOCS"), s') /\
    calls s' = [GetSpaces 100 None].
Proof.
  destruct (getSpaceByKey_fails_on_the_first_page
              Demo.env Demo.config 0 "DOCS" Demo.start
              {| results := [Demo.HR; Demo.DEV]; size := 2;
                 links_next := None; other := JObj [] |} eq_refl)
    as [s' [Hcalls [Hnot_found _]]].
  - intros expiry H. discriminate.
  - reflexivity.
  - intros sp [H | [H | []]]; subst sp; discriminate.
  - exists s'. split; [ apply Hnot_found; reflexivity | exact Hcalls ].
Defined.

Lemma listings_fetch_one_body_per_page_witness :
  exists r s',
    getSpaceContent Demo.env Demo.config "DEV" 25 0 (Some "view") Demo.start
    = (Ok r, s') /\
    calls s' = [GetPages "DEV" 25 0; GetContent "c1" "body.view,version,space";
                GetContent "c2" "body.view,version,space"].
Proof.
  destruct (listings_fetch_one_body_per_page
              Demo.env Demo.config 25 0 (Some "view") Demo.start
              {| results := [Demo.mkPage "c1" "DEV" None;
                             Demo.mkPage "c2" "DEV" None];
                 size := 2; links_next := None; other := JObj [] |})
    as [Hcontent _].
  destruct (Hcontent "DEV" eq_refl eq_refl)
    as [r [s' [Hrun [_ [Hcalls _]]]]].
  exists r, s'. split; [ exact Hrun | exact Hcalls ].
Defined.

Lemma writes_go_to_allowed_spaces_only_witness :
  calls (snd (updatePage Demo.env Demo.config "p1" "Notes" "<p>hi</p>" 7
                         Demo.start))
  = [GetContent "p1" "space,version";
     PutPageUpdate "p1"
       {| up_id := "p1"; up_status := "current"; up_title := "Notes";
          up_type := "page"; up_version_number := 7;
          up_body_storage_value := "<p>hi</p>";
          up_body_storage_representation := "storage" |}] /\
  exists page,
    fst (http_page Demo.env (GetContent "p1" "space,version") 0) = inr page /\
    In (ostr (page_space page)) (allowedSpaces Demo.config).
Proof.
  split; [ reflexivity | ].
  destruct (writes_go_to_allowed_spaces_only
              Demo.env Demo.config "p1" Demo.start
              [GetContent "p1" "space,version"]
              (PutPageUpdate "p1"
                 {| up_id := "p1"; up_status := "current";
                    up_title := "Notes"; up_type := "page";
                    up_version_number := 7;
                    up_body_storage_value := "<p>hi</p>";
                    up_body_storage_representation := "storage" |})
              eq_refl) as [Hupdate _].
  destruct (Hupdate "Notes" "<p>hi</p>" 7 eq_refl) as [Hpage _].
  exact Hpage.
Defined.

End ClientFacts.
